(** * A verified model of the address-book assistant ([src/main.py])

    The program is a command-line contact directory.  This development is a
    shallow embedding of it: Python strings are sequences of Unicode code
    points, exceptions are values of an explicit result type, the
    [AddressBook] dictionary is an association list in insertion order and
    the handlers are state-passing functions over it. *)

From Stdlib Require Import ZArith List Bool String Ascii Lia.
Import ListNotations.
Open Scope Z_scope.

(** ** Python strings *)

(** A [str] is a sequence of Unicode code points. *)
Definition char := Z.
Definition pystr := list char.

(** String literals of the source, as code points. *)
Definition lit (s : string) : pystr :=
  map (fun a => Z.of_N (N_of_ascii a)) (list_ascii_of_string s).

Definition len {A} (l : list A) : Z := Z.of_nat (List.length l).

Fixpoint str_eqb (a b : pystr) : bool :=
  match a, b with
  | [], [] => true
  | x :: a', y :: b' => (x =? y) && str_eqb a' b'
  | _, _ => false
  end.

(** [sep.join(parts)] *)
Fixpoint join (sep : pystr) (parts : list pystr) : pystr :=
  match parts with
  | [] => []
  | [p] => p
  | p :: rest => p ++ sep ++ join sep rest
  end.

Definition in_ranges (c : char) (table : list (Z * Z)) : bool :=
  existsb (fun r => (fst r <=? c) && (c <=? snd r)) table.

(** Code points of general category Nd (Unicode 14, the database of
    CPython 3.11): the characters [str.isdecimal] accepts, the regular
    expression class [\d] matches and [int] converts.  Every range is a
    run of complete blocks zero..nine. *)
Definition decimal_ranges : list (Z * Z) :=
  [
    (48, 57); (1632, 1641); (1776, 1785); (1984, 1993); (2406, 2415); (2534, 2543);
    (2662, 2671); (2790, 2799); (2918, 2927); (3046, 3055); (3174, 3183); (3302, 3311);
    (3430, 3439); (3558, 3567); (3664, 3673); (3792, 3801); (3872, 3881); (4160, 4169);
    (4240, 4249); (6112, 6121); (6160, 6169); (6470, 6479); (6608, 6617); (6784, 6793);
    (6800, 6809); (6992, 7001); (7088, 7097); (7232, 7241); (7248, 7257); (42528, 42537);
    (43216, 43225); (43264, 43273); (43472, 43481); (43504, 43513); (43600, 43609); (44016, 44025);
    (65296, 65305); (66720, 66729); (68912, 68921); (69734, 69743); (69872, 69881); (69942, 69951);
    (70096, 70105); (70384, 70393); (70736, 70745); (70864, 70873); (71248, 71257); (71360, 71369);
    (71472, 71481); (71904, 71913); (72016, 72025); (72784, 72793); (73040, 73049); (73120, 73129);
    (92768, 92777); (92864, 92873); (93008, 93017); (120782, 120831); (123200, 123209); (123632, 123641);
    (125264, 125273); (130032, 130041)
  ].

(** Code points whose Numeric_Type is Digit but not Decimal (superscripts,
    subscripts, circled digits, ...): accepted by [str.isdigit] only. *)
Definition other_digit_ranges : list (Z * Z) :=
  [
    (178, 179); (185, 185); (4969, 4977); (6618, 6618); (8304, 8304); (8308, 8313);
    (8320, 8329); (9312, 9320); (9332, 9340); (9352, 9360); (9450, 9450); (9461, 9469);
    (9471, 9471); (10102, 10110); (10112, 10120); (10122, 10130); (68160, 68163); (69216, 69224);
    (69714, 69722); (127232, 127242)
  ].

(** Code points [str.isspace] accepts; [str.split()] and [str.strip()]
    cut on them. *)
Definition space_ranges : list (Z * Z) :=
  [ (9, 13); (28, 32); (133, 133); (160, 160); (5760, 5760); (8192, 8202);
    (8232, 8233); (8239, 8239); (8287, 8287); (12288, 12288) ].

Definition isdecimal_char (c : char) : bool := in_ranges c decimal_ranges.

Definition isdigit_char (c : char) : bool :=
  isdecimal_char c || in_ranges c other_digit_ranges.

Definition isspace_char (c : char) : bool := in_ranges c space_ranges.

(** [s.isdigit()]: every character is a digit and there is at least one. *)
Definition isdigit (s : pystr) : bool :=
  match s with
  | [] => false
  | _ => forallb isdigit_char s
  end.

(** The ASCII digits, ['0'] to ['9']. *)
Definition is_ascii_digit (c : char) : bool := (48 <=? c) && (c <=? 57).

(** The decimal value of a character of category Nd. *)
Definition decimal_value (c : char) : Z :=
  match find (fun r => (fst r <=? c) && (c <=? snd r)) decimal_ranges with
  | Some r => (c - fst r) mod 10
  | None => 0
  end.

(** ** Exceptions *)

Inductive exn_class : Type :=
| KeyError | ValueError | IndexError | AttributeError | OverflowError
| TypeError.

Record exn : Type := Raise { exn_cls : exn_class; exn_msg : pystr }.

Inductive res (A : Type) : Type :=
| Ret (a : A)
| Exc (e : exn).
Arguments Ret {A} a.
Arguments Exc {A} e.

Definition bind {A B} (m : res A) (k : A -> res B) : res B :=
  match m with
  | Ret a => k a
  | Exc e => Exc e
  end.

Notation "x <- m ;; k" := (bind m (fun x => k))
  (at level 61, m at next level, right associativity).

Definition is_exc {A} (m : res A) : bool :=
  match m with Exc _ => true | Ret _ => false end.

(** ** Fields *)

Module Name.
Record t : Type := { value : pystr }.
Definition init (value : pystr) : t := {| value := value |}.
End Name.

Module Phone.
Record t : Type := { value : pystr }.

Definition InvalidFormat : exn :=
  Raise ValueError (lit "Phone number must be 10 digits.").

Definition init (value : pystr) : res t :=
  if negb (isdigit value) || negb (len value =? 10)
  then Exc InvalidFormat
  else Ret {| value := value |}.
End Phone.

(** ** Decimal numerals *)

Fixpoint dec_digits (fuel : nat) (n : Z) : pystr :=
  match fuel with
  | O => []
  | S fuel' =>
      (if n <? 10 then [] else dec_digits fuel' (n / 10)) ++ [48 + n mod 10]
  end.

(** [str(n)] for a natural number [n]. *)
Definition str_of_int (n : Z) : pystr := dec_digits (S (Z.to_nat (Z.log2 n))) n.

(** The [%02d] conversion of [strftime], for [0 <= n < 100]. *)
Definition two_digits (n : Z) : pystr := [48 + n / 10; 48 + n mod 10].

(** [int(s)] for the text of a group of the format below: decimal
    characters, after a blank at most (blanks are skipped). *)
Definition int_of_str (s : pystr) : Z :=
  fold_left (fun acc c => if isspace_char c then acc else 10 * acc + decimal_value c)
            s 0.

(** ** [datetime.date] *)

Module date.

Record t : Type := { year : Z; month : Z; day : Z }.

Definition MINYEAR : Z := 1.
Definition MAXYEAR : Z := 9999.
Definition MAXORDINAL : Z := 3652059.

Definition is_leap (y : Z) : bool :=
  (y mod 4 =? 0) && (negb (y mod 100 =? 0) || (y mod 400 =? 0)).

Definition DAYS_IN_MONTH : list Z :=
  [-1; 31; 28; 31; 30; 31; 30; 31; 31; 30; 31; 30; 31].

Definition DAYS_BEFORE_MONTH : list Z :=
  [-1; 0; 31; 59; 90; 120; 151; 181; 212; 243; 273; 304; 334].

Definition index (l : list Z) (i : Z) : Z := nth (Z.to_nat i) l 0.

Definition b2z (b : bool) : Z := if b then 1 else 0.

Definition days_before_year (y : Z) : Z :=
  let y := y - 1 in y * 365 + y / 4 - y / 100 + y / 400.

Definition days_in_month (y m : Z) : Z :=
  if (m =? 2) && is_leap y then 29 else index DAYS_IN_MONTH m.

Definition days_before_month (y m : Z) : Z :=
  index DAYS_BEFORE_MONTH m + b2z ((2 <? m) && is_leap y).

Definition ymd2ord (y m d : Z) : Z :=
  days_before_year y + days_before_month y m + d.

Definition DI400Y : Z := 146097.
Definition DI100Y : Z := 36524.
Definition DI4Y : Z := 1461.

Definition ord2ymd (n : Z) : t :=
  let n := n - 1 in
  let n400 := n / DI400Y in
  let n := n mod DI400Y in
  let y := n400 * 400 + 1 in
  let n100 := n / DI100Y in
  let n := n mod DI100Y in
  let n4 := n / DI4Y in
  let n := n mod DI4Y in
  let n1 := n / 365 in
  let n := n mod 365 in
  let y := y + (n100 * 100 + n4 * 4 + n1) in
  if (n1 =? 4) || (n100 =? 4) then {| year := y - 1; month := 12; day := 31 |}
  else
    let leapyear := (n1 =? 3) && (negb (n4 =? 24) || (n100 =? 3)) in
    let m := Z.shiftr (n + 50) 5 in
    let preceding := index DAYS_BEFORE_MONTH m + b2z ((2 <? m) && leapyear) in
    if n <? preceding then
      let m := m - 1 in
      let preceding :=
        preceding - (index DAYS_IN_MONTH m + b2z ((m =? 2) && leapyear)) in
      {| year := y; month := m; day := n - preceding + 1 |}
    else {| year := y; month := m; day := n - preceding + 1 |}.

(** The constructor [date(year, month, day)] with its range checks. *)
Definition new (y m d : Z) : res t :=
  if negb ((MINYEAR <=? y) && (y <=? MAXYEAR)) then
    Exc (Raise ValueError (lit "year " ++ str_of_int y ++ lit " is out of range"))
  else if negb ((1 <=? m) && (m <=? 12)) then
    Exc (Raise ValueError (lit "month must be in 1..12"))
  else if negb ((1 <=? d) && (d <=? days_in_month y m)) then
    Exc (Raise ValueError (lit "day is out of range for month"))
  else Ret {| year := y; month := m; day := d |}.

(** [d.replace(year=y)] *)
Definition replace_year (d : t) (y : Z) : res t := new y (month d) (day d).

Definition toordinal (d : t) : Z := ymd2ord (year d) (month d) (day d).

Definition fromordinal (n : Z) : t := ord2ymd n.

(** [d.weekday()]: Monday is 0, Sunday is 6. *)
Definition weekday (d : t) : Z := (toordinal d + 6) mod 7.

(** [a < b] *)
Definition ltb (a b : t) : bool :=
  (year a <? year b)
  || ((year a =? year b)
      && ((month a <? month b) || ((month a =? month b) && (day a <? day b)))).

(** [(a - b).days] *)
Definition sub_days (a b : t) : Z := toordinal a - toordinal b.

(** [d + timedelta(days=k)] *)
Definition add_days (d : t) (k : Z) : res t :=
  let o := toordinal d + k in
  if (0 <? o) && (o <=? MAXORDINAL) then Ret (fromordinal o)
  else Exc (Raise OverflowError (lit "date value out of range")).

(** [d.strftime("%d.%m.%Y")]; the C library prints the year unpadded. *)
Definition strftime (d : t) : pystr :=
  two_digits (day d) ++ lit "." ++ two_digits (month d) ++ lit "."
  ++ str_of_int (year d).

Definition valid (d : t) : Prop :=
  MINYEAR <= year d <= MAXYEAR /\ 1 <= month d <= 12
  /\ 1 <= day d <= days_in_month (year d) (month d).

End date.

(** ** [datetime.strptime(value, "%d.%m.%Y")] *)

Module strptime.

(** A backtracking matcher: every way to match a prefix of the input, in
    the order the regular-expression engine tries them, as the matched
    text and the remaining input. *)
Definition matcher : Type := pystr -> list (pystr * pystr).

Definition one (p : char -> bool) : matcher :=
  fun s =>
    match s with
    | c :: r => if p c then [([c], r)] else []
    | [] => []
    end.

Definition seq (a b : matcher) : matcher :=
  fun s =>
    flat_map (fun xr => map (fun yr => (fst xr ++ fst yr, snd yr)) (b (snd xr)))
             (a s).

Definition alt (a b : matcher) : matcher := fun s => a s ++ b s.

Definition between (lo hi : char) : char -> bool :=
  fun c => (lo <=? c) && (c <=? hi).

Definition exactly (c0 : char) : char -> bool := fun c => c =? c0.

(** ['0'] is 48, ['9'] is 57, the blank is 32 and the dot is 46. *)

(** [3[0-1]|[1-2]\d|0[1-9]|[1-9]| [1-9]] *)
Definition re_d : matcher :=
  alt (seq (one (exactly 51)) (one (between 48 49)))
  (alt (seq (one (between 49 50)) (one isdecimal_char))
  (alt (seq (one (exactly 48)) (one (between 49 57)))
  (alt (one (between 49 57))
       (seq (one (exactly 32)) (one (between 49 57)))))).

(** [1[0-2]|0[1-9]|[1-9]] *)
Definition re_m : matcher :=
  alt (seq (one (exactly 49)) (one (between 48 50)))
  (alt (seq (one (exactly 48)) (one (between 49 57)))
       (one (between 49 57))).

(** [\d\d\d\d] *)
Definition re_Y : matcher :=
  seq (one isdecimal_char)
      (seq (one isdecimal_char) (seq (one isdecimal_char) (one isdecimal_char))).

Definition re_dot : matcher := one (exactly 46).

(** The compiled format [(?P<d>..)\.(?P<m>..)\.(?P<Y>..)]: the groups
    [(d, m, Y)] of every match, with the input left over. *)
Definition format_regex (s : pystr) : list ((pystr * pystr * pystr) * pystr) :=
  flat_map (fun d =>
    flat_map (fun p1 =>
      flat_map (fun m =>
        flat_map (fun p2 =>
          map (fun y => ((fst d, fst m, fst y), snd y)) (re_Y (snd p2)))
          (re_dot (snd m)))
        (re_m (snd p1)))
      (re_dot (snd d)))
    (re_d s).

(** The texts of the two [ValueError]s are abbreviated (the library quotes
    the input in them); [Birthday] replaces them by its own. *)
Definition parse (data_string : pystr) : res date.t :=
  match format_regex data_string with
  | [] => Exc (Raise ValueError (lit "time data does not match format"))
  | ((d, m, y), rest) :: _ =>
      match rest with
      | _ :: _ => Exc (Raise ValueError (lit "unconverted data remains"))
      | [] => date.new (int_of_str y) (int_of_str m) (int_of_str d)
      end
  end.

End strptime.

Module Birthday.
Record t : Type := { value : pystr }.

Definition InvalidFormat : exn :=
  Raise ValueError (lit "Birthday must be in DD.MM.YYYY format.").

Definition init (value : pystr) : res t :=
  match strptime.parse value with
  | Exc (Raise ValueError _) => Exc InvalidFormat
  | Exc e => Exc e
  | Ret _ => Ret {| value := value |}
  end.
End Birthday.

(** ** Records *)

Module Record.

Record t : Type :=
  { name : Name.t; phones : list Phone.t; birthday : option Birthday.t }.

Definition init (name : pystr) : t :=
  {| name := Name.init name; phones := []; birthday := None |}.

Definition NotFound : exn :=
  Raise ValueError (lit "Old phone number not found.").

(** The methods mutate [self]; each returns the record after the call.
    An exception leaves the record as it was: every [raise] of these
    methods comes before the assignment. *)

Definition add_phone (self : t) (phone : pystr) : res t :=
  p <- Phone.init phone ;;
  Ret {| name := name self; phones := phones self ++ [p];
         birthday := birthday self |}.

(** The loop of [change_phone] over [enumerate(self.phones)]. *)
Fixpoint change_phone_loop (phones : list Phone.t) (old_phone new_phone : pystr)
  : res (list Phone.t) :=
  match phones with
  | [] => Exc NotFound
  | phone :: rest =>
      if str_eqb (Phone.value phone) old_phone
      then p <- Phone.init new_phone ;; Ret (p :: rest)
      else rest' <- change_phone_loop rest old_phone new_phone ;;
           Ret (phone :: rest')
  end.

Definition change_phone (self : t) (old_phone new_phone : pystr) : res t :=
  phones' <- change_phone_loop (phones self) old_phone new_phone ;;
  Ret {| name := name self; phones := phones'; birthday := birthday self |}.

Definition add_birthday (self : t) (b : pystr) : res t :=
  b' <- Birthday.init b ;;
  Ret {| name := name self; phones := phones self; birthday := Some b' |}.

(** [__str__] *)
Definition str (self : t) : pystr :=
  let phones_s :=
    match phones self with
    | [] => lit "No phones"
    | ps => join (lit ", ") (map Phone.value ps)
    end in
  let birthday_s :=
    match birthday self with
    | Some b => Birthday.value b
    | None => lit "No birthday"
    end in
  Name.value (name self) ++ lit ": " ++ phones_s ++ lit ", Birthday: "
  ++ birthday_s.

End Record.

(** ** The address book *)

Module AddressBook.

(** A [dict] keeps its keys in insertion order: the book is the list of
    its items, one per key. *)
Definition t : Type := list (pystr * Record.t).

Definition empty : t := [].

(** [book.get(key)] *)
Fixpoint get (book : t) (key : pystr) : option Record.t :=
  match book with
  | [] => None
  | (k, r) :: rest => if str_eqb k key then Some r else get rest key
  end.

(** [book[key] = record]: an existing key keeps its position. *)
Fixpoint setitem (book : t) (key : pystr) (record : Record.t) : t :=
  match book with
  | [] => [(key, record)]
  | (k, r) :: rest =>
      if str_eqb k key then (k, record) :: rest
      else (k, r) :: setitem rest key record
  end.

Definition add_record (book : t) (record : Record.t) : t :=
  setitem book (Name.value (Record.name record)) record.

Definition keys (book : t) : list pystr := map fst book.
Definition values (book : t) : list Record.t := map snd book.

(** The body of the loop of [get_upcoming_birthdays] for one record: the
    pair it appends, if any. *)
Definition upcoming_of (today : date.t) (record : Record.t)
  : res (option (pystr * pystr)) :=
  match Record.birthday record with
  | None => Ret None
  | Some b =>
      bday <- strptime.parse (Birthday.value b) ;;
      bday_this_year <- date.replace_year bday (date.year today) ;;
      bday_this_year <-
        (if date.ltb bday_this_year today
         then date.replace_year bday_this_year (date.year today + 1)
         else Ret bday_this_year) ;;
      let delta := date.sub_days bday_this_year today in
      if delta <=? 7 then
        let congrats_date := bday_this_year in
        congrats_date <-
          (if 5 <=? date.weekday congrats_date
           then date.add_days congrats_date (7 - date.weekday congrats_date)
           else Ret congrats_date) ;;
        Ret (Some (Name.value (Record.name record), date.strftime congrats_date))
      else Ret None
  end.

Fixpoint upcoming_loop (today : date.t) (records : list Record.t)
  (upcoming : list (pystr * pystr)) : res (list (pystr * pystr)) :=
  match records with
  | [] => Ret upcoming
  | record :: rest =>
      o <- upcoming_of today record ;;
      upcoming_loop today rest
        (match o with Some p => upcoming ++ [p] | None => upcoming end)
  end.

(** [today] stands for [datetime.today().date()]. *)
Definition get_upcoming_birthdays (today : date.t) (book : t)
  : res (list (pystr * pystr)) :=
  upcoming_loop today (values book) [].

End AddressBook.

(** ** Command handlers *)

(** A handler returns a string or raises, and leaves the book it was
    given in some state either way. *)
Definition outcome : Type := (res pystr * AddressBook.t)%type.

(** The decorator: the four caught classes become an ["Error: ..."]
    string, any other exception passes through.  [exn_msg] is [str(e)];
    the handlers raise no [KeyError], whose [str] would quote the key. *)
Definition input_error {A : Type} (func : A -> outcome) : A -> outcome :=
  fun a =>
    match func a with
    | (Exc (Raise cls msg), book) =>
        match cls with
        | KeyError | ValueError | IndexError | AttributeError =>
            (Ret (lit "Error: " ++ msg), book)
        | OverflowError | TypeError => (Exc (Raise cls msg), book)
        end
    | r => r
    end.

(** The [ValueError] of a tuple assignment [x1, ..., xn = args]. *)
Definition unpack_error (expected : Z) (args : list pystr) : exn :=
  if len args <? expected then
    Raise ValueError
      (lit "not enough values to unpack (expected " ++ str_of_int expected
       ++ lit ", got " ++ str_of_int (len args) ++ lit ")")
  else
    Raise ValueError
      (lit "too many values to unpack (expected " ++ str_of_int expected
       ++ lit ")").

(** Attribute access on [None]. *)
Definition none_has_no (attr : string) : exn :=
  Raise AttributeError
    (lit "'NoneType' object has no attribute '" ++ lit attr ++ lit "'").

Definition index_error : exn := Raise IndexError (lit "list index out of range").

Definition add_contact_func (a : list pystr * AddressBook.t) : outcome :=
  let (args, book) := a in
  match args with
  | [name; phone] =>
      match AddressBook.get book name with
      | Some record =>
          match Record.add_phone record phone with
          | Ret record' =>
              (Ret (lit "Contact " ++ name ++ lit " updated."),
               AddressBook.setitem book name record')
          | Exc e => (Exc e, book)
          end
      | None =>
          let record := Record.init name in
          match Record.add_phone record phone with
          | Ret record' =>
              (Ret (lit "Contact " ++ name ++ lit " updated."),
               AddressBook.add_record book record')
          | Exc e => (Exc e, book)
          end
      end
  | _ => (Exc (unpack_error 2 args), book)
  end.

Definition change_contact_func (a : list pystr * AddressBook.t) : outcome :=
  let (args, book) := a in
  match args with
  | [name; old_phone; new_phone] =>
      match AddressBook.get book name with
      | Some record =>
          match Record.change_phone record old_phone new_phone with
          | Ret record' =>
              (Ret (lit "Phone number for " ++ name ++ lit " updated."),
               AddressBook.setitem book name record')
          | Exc e => (Exc e, book)
          end
      | None => (Exc (none_has_no "change_phone"), book)
      end
  | _ => (Exc (unpack_error 3 args), book)
  end.

Definition show_phone_func (a : list pystr * AddressBook.t) : outcome :=
  let (args, book) := a in
  match args with
  | name :: _ =>
      match AddressBook.get book name with
      | Some record =>
          (Ret (name ++ lit ": "
                ++ join (lit ", ") (map Phone.value (Record.phones record))),
           book)
      | None => (Exc (none_has_no "phones"), book)
      end
  | [] => (Exc index_error, book)
  end.

(** [chr(10)], the line separator of the listings. *)
Definition newline : pystr := [10].

Definition show_all_func (book : AddressBook.t) : outcome :=
  (Ret (join newline (map Record.str (AddressBook.values book))), book).

Definition add_birthday_handler_func (a : list pystr * AddressBook.t) : outcome :=
  let (args, book) := a in
  match args with
  | [name; birthday] =>
      let (record, book) :=
        match AddressBook.get book name with
        | Some record => (record, book)
        | None =>
            let record := Record.init name in
            (record, AddressBook.add_record book record)
        end in
      match Record.add_birthday record birthday with
      | Ret record' =>
          (Ret (lit "Birthday added for " ++ name ++ lit "."),
           AddressBook.setitem book name record')
      | Exc e => (Exc e, book)
      end
  | _ => (Exc (unpack_error 2 args), book)
  end.

Definition show_birthday_func (a : list pystr * AddressBook.t) : outcome :=
  let (args, book) := a in
  match args with
  | name :: _ =>
      match AddressBook.get book name with
      | Some record =>
          match Record.birthday record with
          | Some b =>
              (Ret (name ++ lit "'s birthday: " ++ Birthday.value b), book)
          | None => (Ret (lit "No birthday set for " ++ name ++ lit "."), book)
          end
      | None => (Exc (none_has_no "birthday"), book)
      end
  | [] => (Exc index_error, book)
  end.

Definition upcoming_birthdays_func (today : date.t) (book : AddressBook.t)
  : outcome :=
  match AddressBook.get_upcoming_birthdays today book with
  | Ret [] => (Ret (lit "No upcoming birthdays."), book)
  | Ret upcoming =>
      (Ret (join newline
              (map (fun nd => fst nd ++ lit ": " ++ snd nd) upcoming)),
       book)
  | Exc e => (Exc e, book)
  end.

(** The decorated handlers, under the names the module binds them to. *)
Definition add_contact := input_error add_contact_func.
Definition change_contact := input_error change_contact_func.
Definition show_phone := input_error show_phone_func.
Definition show_all := input_error show_all_func.
Definition add_birthday_handler := input_error add_birthday_handler_func.
Definition show_birthday := input_error show_birthday_func.
Definition upcoming_birthdays (today : date.t) :=
  input_error (upcoming_birthdays_func today).

(** ** The dispatch loop *)

Fixpoint dropwhile {A} (p : A -> bool) (l : list A) : list A :=
  match l with
  | [] => []
  | x :: r => if p x then dropwhile p r else l
  end.

(** [s.strip()] *)
Definition strip (s : pystr) : pystr :=
  rev (dropwhile isspace_char (rev (dropwhile isspace_char s))).

(** [s.split()]: the maximal runs of characters that are not blank;
    [word] is the run being read. *)
Fixpoint split_from (word : pystr) (s : pystr) : list pystr :=
  match s with
  | [] => match word with [] => [] | _ => [word] end
  | c :: r =>
      if isspace_char c
      then match word with
           | [] => split_from [] r
           | _ => word :: split_from [] r
           end
      else split_from (word ++ [c]) r
  end.

Definition split (s : pystr) : list pystr := split_from [] s.

Fixpoint mem (x : pystr) (l : list pystr) : bool :=
  match l with
  | [] => false
  | y :: r => str_eqb x y || mem x r
  end.

Inductive handler : Type :=
| with_args (h : list pystr * AddressBook.t -> outcome)
| book_only (h : AddressBook.t -> outcome).

(** The [commands] dictionary of [main]. *)
Definition commands (today : date.t) : list (pystr * handler) :=
  [ (lit "add", with_args add_contact);
    (lit "change", with_args change_contact);
    (lit "phone", with_args show_phone);
    (lit "all", book_only show_all);
    (lit "add-birthday", with_args add_birthday_handler);
    (lit "show-birthday", with_args show_birthday);
    (lit "birthdays", book_only (upcoming_birthdays today)) ].

Fixpoint lookup {V} (key : pystr) (d : list (pystr * V)) : option V :=
  match d with
  | [] => None
  | (k, v) :: r => if str_eqb key k then Some v else lookup key r
  end.

(** What one turn of the [while True] loop does with the line it read. *)
Inductive turn : Type :=
| Continue (printed : list pystr) (book : AddressBook.t)
| Break (printed : list pystr) (saved : AddressBook.t)
| Uncaught (e : exn) (book : AddressBook.t).

(** Calling a handler with the other handlers' arguments; [main] pairs
    the two lists of command words so that it never happens. *)
Definition wrong_call : exn := Raise TypeError (lit "wrong number of arguments").

Definition print_outcome (o : outcome) : turn :=
  match o with
  | (Ret s, book) => Continue [s] book
  | (Exc e, book) => Uncaught e book
  end.

Section Loop.

(** [str.lower], from the case tables of the Unicode database, and the
    date the system clock gives. *)
Variable lower : pystr -> pystr.
Variable today : date.t.

Definition main_turn (line : pystr) (book : AddressBook.t) : turn :=
  match split (strip line) with
  | [] => Continue [] book
  | command :: args =>
      let command := lower command in
      if mem command [lit "close"; lit "exit"] then
        Break [lit "Goodbye!"] book
      else if str_eqb command (lit "hello") then
        Continue [lit "How can I help you?"] book
      else
        match lookup command (commands today) with
        | Some handler =>
            if mem command [lit "all"; lit "birthdays"] then
              match handler with
              | book_only h => print_outcome (h book)
              | with_args _ => Uncaught wrong_call book
              end
            else
              match handler with
              | with_args h => print_outcome (h (args, book))
              | book_only _ => Uncaught wrong_call book
              end
        | None => Continue [lit "Unknown command. Try again."] book
        end
  end.

End Loop.

(** The part of [str.lower] on ASCII. *)
Definition ascii_lower (s : pystr) : pystr :=
  map (fun c => if (65 <=? c) && (c <=? 90) then c + 32 else c) s.

(** * The vocabulary of the properties *)

(** Ten times SUPERSCRIPT TWO (U+00B2). *)
Definition superscript_twos : pystr := repeat 178 10.

(** The record of the specification's example. *)
Definition one_phone_record : Record.t :=
  {| Record.name := Name.init (lit "Ann");
     Record.phones := [ {| Phone.value := lit "1111111111" |} ];
     Record.birthday := None |}.

(** The command words [main] recognises. *)
Definition recognized : list pystr :=
  [ lit "hello"; lit "add"; lit "change"; lit "phone"; lit "all";
    lit "add-birthday"; lit "show-birthday"; lit "birthdays";
    lit "close"; lit "exit" ].

(** The occurrence of a birthday the loop looks at: this year's, or next
    year's when this year's is before [today]. *)
Definition next_occurrence (today bday : date.t) : res date.t :=
  this_year <- date.replace_year bday (date.year today) ;;
  if date.ltb this_year today
  then date.replace_year this_year (date.year today + 1)
  else Ret this_year.

(** A Saturday or a Sunday moved to the Monday after it. *)
Definition shift_weekend (d : date.t) : date.t :=
  if 5 <=? date.weekday d
  then date.fromordinal (date.toordinal d + (7 - date.weekday d))
  else d.

(** Monday 10.06.2024, the date of the specification's examples. *)
Definition monday_10_06_2024 : date.t :=
  {| date.year := 2024; date.month := 6; date.day := 10 |}.

Definition contact (name : string) (b : string) : Record.t :=
  {| Record.name := Name.init (lit name);
     Record.phones := [];
     Record.birthday := Some {| Birthday.value := lit b |} |}.

(** The book after [add-birthday John 15.06.1990] and
    [add-birthday Bob 29.02.2000]. *)
Definition leap_day_book : AddressBook.t :=
  [ (lit "John", contact "John" "15.06.1990");
    (lit "Bob", contact "Bob" "29.02.2000") ].

(** The 10-digit constraint, as [Phone] enforces it. *)
Definition phone_ok (p : Phone.t) : Prop :=
  len (Phone.value p) = 10 /\ forallb isdigit_char (Phone.value p) = true.

(** The date-format constraint, as [Birthday] enforces it. *)
Definition birthday_ok (b : Birthday.t) : Prop :=
  exists d, strptime.parse (Birthday.value b) = Ret d.

Definition record_ok (r : Record.t) : Prop :=
  Forall phone_ok (Record.phones r)
  /\ (forall b, Record.birthday r = Some b -> birthday_ok b).

Definition book_ok (book : AddressBook.t) : Prop :=
  NoDup (AddressBook.keys book) /\ Forall record_ok (AddressBook.values book).

(** The books the program can hold: the empty book, and the book after
    one more turn of the loop, for whatever line, clock and case table. *)
Inductive reachable : AddressBook.t -> Prop :=
| reach_empty : reachable AddressBook.empty
| reach_turn lower today line book printed book' :
    reachable book ->
    main_turn lower today line book = Continue printed book' ->
    reachable book'.

(** The book after [add John 1234567890]. *)
Definition john_book : AddressBook.t :=
  [ (lit "John",
     {| Record.name := Name.init (lit "John");
        Record.phones := [ {| Phone.value := lit "1234567890" |} ];
        Record.birthday := None |}) ].

(** The classes the decorator catches. *)
Definition caught (cls : exn_class) : bool :=
  match cls with
  | KeyError | ValueError | IndexError | AttributeError => true
  | OverflowError | TypeError => false
  end.

(** A string without a line break. *)
Definition one_line (s : pystr) : bool := forallb (fun c => negb (c =? 10)) s.

(** An exception the decorator turns into a one-line message. *)
Definition tame (e : exn) : Prop :=
  caught (exn_cls e) = true /\ one_line (exn_msg e) = true.

(** A handler body whose every exception the decorator recovers: the
    decorated handler returns the string of the body, or the line
    ["Error: "] followed by the message of the exception the body raised,
    and in both cases leaves the book as the body left it. *)
Definition recovers {A : Type} (func : A -> outcome) : Prop :=
  forall a,
    match fst (func a) with
    | Ret s => input_error func a = (Ret s, snd (func a))
    | Exc e =>
        input_error func a = (Ret (lit "Error: " ++ exn_msg e), snd (func a))
        /\ one_line (lit "Error: " ++ exn_msg e) = true
    end.

(** The texts the three groups of the format can capture: a day of one
    or two characters (two digits, one digit, or a blank and a digit), a
    month of one or two digits, a year of four decimal characters. *)
Definition day_text (d : pystr) : bool :=
  match d with
  | [a] => strptime.between 49 57 a
  | [a; b] =>
      (a =? 51) && strptime.between 48 49 b
      || strptime.between 49 50 a && isdecimal_char b
      || (a =? 48) && strptime.between 49 57 b
      || (a =? 32) && strptime.between 49 57 b
  | _ => false
  end.

Definition month_text (m : pystr) : bool :=
  match m with
  | [a] => strptime.between 49 57 a
  | [a; b] =>
      (a =? 49) && strptime.between 48 50 b
      || (a =? 48) && strptime.between 49 57 b
  | _ => false
  end.

Definition year_text (y : pystr) : bool :=
  match y with
  | [a; b; c; d] =>
      isdecimal_char a && isdecimal_char b && isdecimal_char c
      && isdecimal_char d
  | _ => false
  end.

(** The strings [Birthday] accepts. *)
Definition birthday_text (s : pystr) : Prop :=
  exists d m y : pystr,
    s = d ++ [46] ++ m ++ [46] ++ y
    /\ day_text d = true /\ month_text m = true /\ year_text y = true
    /\ 1 <= int_of_str y
    /\ int_of_str d <= date.days_in_month (int_of_str y) (int_of_str m).

(** Following the specification's words: DD.MM.YYYY with a zero-padded
    two-digit day, a zero-padded two-digit month and a four-digit year,
    naming a real calendar date. *)
Definition spec_dd_mm_yyyy (s : pystr) : bool :=
  match s with
  | [d1; d2; p; m1; m2; q; y1; y2; y3; y4] =>
      let day := 10 * (d1 - 48) + (d2 - 48) in
      let month := 10 * (m1 - 48) + (m2 - 48) in
      let year :=
        1000 * (y1 - 48) + 100 * (y2 - 48) + 10 * (y3 - 48) + (y4 - 48) in
      forallb is_ascii_digit [d1; d2; m1; m2; y1; y2; y3; y4]
      && (p =? 46) && (q =? 46)
      && (1 <=? year) && (1 <=? month) && (month <=? 12)
      && (1 <=? day) && (day <=? date.days_in_month year month)
  | _ => false
  end.

(** Two tables of ranges without a common code point. *)
Definition ranges_disjoint (t1 t2 : list (Z * Z)) : bool :=
  forallb (fun r1 =>
    forallb (fun r2 => (snd r1 <? fst r2) || (snd r2 <? fst r1)) t2) t1.

(** What the month search of [ord2ymd] must deliver for the day [n] of a
    year (counted from 0): a month, the days before it and a day of it. *)
Definition month_day_check (leap : bool) (n : Z) : bool :=
  let m := Z.shiftr (n + 50) 5 in
  let preceding := date.index date.DAYS_BEFORE_MONTH m + date.b2z ((2 <? m) && leap) in
  let m' := if n <? preceding then m - 1 else m in
  let p' := if n <? preceding
            then preceding - (date.index date.DAYS_IN_MONTH (m - 1)
                              + date.b2z ((m - 1 =? 2) && leap))
            else preceding in
  (1 <=? m') && (m' <=? 12)
  && (p' =? date.index date.DAYS_BEFORE_MONTH m' + date.b2z ((2 <? m') && leap))
  && (p' <=? n)
  && (n - p' + 1 <=? (if (m' =? 2) && leap then 29 else date.index date.DAYS_IN_MONTH m')).

(** Following the specification's words: a string of exactly 10 decimal
    digits (read generously: any Unicode decimal digit). *)
Definition spec_ten_digits (s : pystr) : bool :=
  (len s =? 10) && forallb isdecimal_char s.

(** Following the specification's words: the invariant of the directory,
    with the phone and birthday constraints as the specification words
    them. *)
Definition spec_record_ok (r : Record.t) : Prop :=
  Forall (fun p => spec_ten_digits (Phone.value p) = true) (Record.phones r)
  /\ (forall b, Record.birthday r = Some b ->
        spec_dd_mm_yyyy (Birthday.value b) = true).

Definition spec_book_ok (book : AddressBook.t) : Prop :=
  NoDup (AddressBook.keys book)
  /\ Forall spec_record_ok (AddressBook.values book).

(** The book after [add John] with ten superscript twos for a phone and
    [add-birthday John 1.1.2020]. *)
Definition odd_book : AddressBook.t :=
  [ (lit "John",
     {| Record.name := Name.init (lit "John");
        Record.phones := [ {| Phone.value := superscript_twos |} ];
        Record.birthday := Some {| Birthday.value := lit "1.1.2020" |} |}) ].

(** The book after [add-birthday Ann 10.06.1990] and
    [add-birthday Bob 29.02.2000]. *)
Definition today_and_leap_day_book : AddressBook.t :=
  [ (lit "Ann", contact "Ann" "10.06.1990");
    (lit "Bob", contact "Bob" "29.02.2000") ].

(** ** The vocabulary of the further properties *)

(** A word as [split] delivers it: not empty and without a blank. *)
Definition token (w : pystr) : Prop :=
  w <> [] /\ forallb (fun c => negb (isspace_char c)) w = true.

(** Each record is filed under its own name, and the names are words. *)
Definition book_named (book : AddressBook.t) : Prop :=
  Forall (fun kr =>
            Name.value (Record.name (snd kr)) = fst kr /\ token (fst kr))
         book.

(** The record [add] and [add-birthday] work on: the one on file under
    the name, or a new one. *)
Definition record_for (book : AddressBook.t) (name : pystr) : Record.t :=
  match AddressBook.get book name with
  | Some r => r
  | None => Record.init name
  end.

(** 29 February. *)
Definition leap_day (d : date.t) : bool :=
  (date.month d =? 2) && (date.day d =? 29).

(** The pairs among the results of the loop body. *)
Definition entries (os : list (option (pystr * pystr)))
  : list (pystr * pystr) :=
  flat_map (fun o => match o with Some p => [p] | None => [] end) os.

(** The birthdays whose next occurrence [replace] cannot build on the
    day [today]: 29 February, when this year has none or this year's has
    passed. *)
Definition no_next_occurrence (today d : date.t) : bool :=
  leap_day d
  && (negb (date.is_leap (date.year today))
      || date.ltb {| date.year := date.year today; date.month := 2;
                     date.day := 29 |} today).

(** The exception of [date] for a day its month does not have. *)
Definition day_out_of_range : exn :=
  Raise ValueError (lit "day is out of range for month").

(** A record after a turn, against the record before it: the same name,
    the same number of phones or one more, and a birthday if there was
    one. *)
Definition keeps (r r' : Record.t) : Prop :=
  Record.name r' = Record.name r
  /\ (List.length (Record.phones r) <= List.length (Record.phones r')
      <= S (List.length (Record.phones r)))%nat
  /\ (Record.birthday r <> None -> Record.birthday r' <> None).

(** * Properties *)

(** ** Strings and characters *)

Lemma str_eqb_eq (a b : pystr) : str_eqb a b = true <-> a = b.
Proof.
  revert b; induction a as [|x a IH]; intros [|y b]; simpl;
    try (split; [discriminate | congruence]); try tauto.
  rewrite andb_true_iff, Z.eqb_eq, IH.
  split; [intros [-> ->]; reflexivity | intros [= -> ->]; auto].
Qed.

Lemma str_eqb_refl (a : pystr) : str_eqb a a = true.
Proof. apply str_eqb_eq; reflexivity. Qed.

Lemma str_eqb_neq (a b : pystr) : str_eqb a b = false <-> a <> b.
Proof.
  rewrite <- str_eqb_eq. destruct (str_eqb a b); split; congruence.
Qed.

Lemma len_nonneg {A} (l : list A) : 0 <= len l.
Proof. unfold len; lia. Qed.

Lemma len_cons {A} (x : A) (l : list A) : len (x :: l) = 1 + len l.
Proof. unfold len; simpl List.length; lia. Qed.

Lemma len_app {A} (l1 l2 : list A) : len (l1 ++ l2) = len l1 + len l2.
Proof. unfold len; rewrite length_app; lia. Qed.

Lemma ascii_digit_is_decimal (c : char) :
  is_ascii_digit c = true -> isdecimal_char c = true.
Proof.
  unfold is_ascii_digit, isdecimal_char, in_ranges, decimal_ranges.
  intros H. cbn [existsb fst snd]. rewrite H. reflexivity.
Qed.

Lemma decimal_is_digit (c : char) :
  isdecimal_char c = true -> isdigit_char c = true.
Proof. unfold isdigit_char; intros ->; reflexivity. Qed.

Lemma ascii_digit_value (c : char) :
  is_ascii_digit c = true -> decimal_value c = c - 48.
Proof.
  unfold is_ascii_digit, decimal_value, decimal_ranges.
  intros H. cbn [find fst snd]. rewrite H.
  apply andb_true_iff in H; destruct H as [H1 H2].
  apply Z.leb_le in H1, H2. cbn [fst].
  rewrite Z.mod_small by lia. reflexivity.
Qed.

Lemma isdigit_forallb (s : pystr) :
  len s = 10 -> isdigit s = forallb isdigit_char s.
Proof. destruct s; [discriminate | reflexivity]. Qed.

(** ** Phone *)

(** C2, as the specification states it, is false: a string of ten
    superscript twos is no string of decimal digits (not even of Unicode
    decimal digits), yet [Phone] accepts it, because [str.isdigit] does. *)
Lemma C2_superscripts_accepted :
  ~ (forall s : pystr,
        is_exc (Phone.init s) = true
        <-> ~ (len s = 10 /\ forallb isdecimal_char s = true)).
Proof.
  intros H. destruct (H superscript_twos) as [_ H2].
  assert (E : is_exc (Phone.init superscript_twos) = true).
  { apply H2. intros [_ D]. vm_compute in D. discriminate. }
  vm_compute in E. discriminate.
Qed.

Lemma Phone_init_ret_iff (s : pystr) :
  len s = 10 /\ forallb isdigit_char s = true
  <-> Phone.init s = Ret {| Phone.value := s |}.
Proof.
  unfold Phone.init. destruct (len s =? 10) eqn:L.
  - apply Z.eqb_eq in L. rewrite (isdigit_forallb s L).
    destruct (forallb isdigit_char s); simpl; split;
      try tauto; try discriminate. intros [_ ?]; discriminate.
  - apply Z.eqb_neq in L. rewrite orb_true_r. split.
    + tauto.
    + discriminate.
Qed.

Lemma Phone_init_cases (s : pystr) :
  Phone.init s = Exc Phone.InvalidFormat
  \/ Phone.init s = Ret {| Phone.value := s |}.
Proof.
  unfold Phone.init.
  destruct (negb (isdigit s) || negb (len s =? 10)); auto.
Qed.

Lemma Phone_init_value (s : pystr) (p : Phone.t) :
  Phone.init s = Ret p -> Phone.value p = s.
Proof.
  intros E. destruct (Phone_init_cases s) as [D|D]; rewrite D in E;
    [discriminate | injection E as <-; reflexivity].
Qed.

(** C2, amended: [Phone] construction fails, with its InvalidFormat error,
    exactly when the string is not ten characters that [str.isdigit]
    accepts; it never fails otherwise; a constructed phone stores the
    string it was given; and every string of ten ASCII decimal digits is
    accepted. *)
Theorem C2_Phone_init_spec (s : pystr) :
  (Phone.init s = Exc Phone.InvalidFormat
   <-> ~ (len s = 10 /\ forallb isdigit_char s = true))
  /\ (is_exc (Phone.init s) = true -> Phone.init s = Exc Phone.InvalidFormat)
  /\ (forall p, Phone.init s = Ret p -> Phone.value p = s)
  /\ (len s = 10 -> forallb is_ascii_digit s = true ->
      Phone.init s = Ret {| Phone.value := s |}).
Proof.
  pose proof (Phone_init_ret_iff s) as K.
  pose proof (Phone_init_cases s) as D.
  repeat split.
  - intros E C. apply K in C. congruence.
  - intros N. destruct D as [D|D]; auto. apply K in D. contradiction.
  - intros E. destruct D as [D|D]; auto. rewrite D in E. discriminate.
  - apply Phone_init_value.
  - intros L A. apply K. split; auto.
    apply forallb_forall. intros c Hc.
    apply decimal_is_digit, ascii_digit_is_decimal.
    rewrite forallb_forall in A. auto.
Qed.

Lemma C2_Phone_init_witness :
  len (lit "0123456789") = 10 /\
  forallb is_ascii_digit (lit "0123456789") = true /\
  Phone.init (lit "0123456789") = Ret {| Phone.value := lit "0123456789" |}.
Proof.
  split; [reflexivity | split; [reflexivity |]].
  apply (proj2 (proj2 (proj2 (C2_Phone_init_spec (lit "0123456789"))))).
  - reflexivity.
  - reflexivity.
Defined.

(** ** Record.change_phone *)

Lemma change_phone_loop_found (before after : list Phone.t) (p : Phone.t)
  (old_phone new_phone : pystr) :
  Forall (fun q => Phone.value q <> old_phone) before ->
  Phone.value p = old_phone ->
  Record.change_phone_loop (before ++ p :: after) old_phone new_phone
  = (n <- Phone.init new_phone ;; Ret (before ++ n :: after)).
Proof.
  intros Hb Hp. induction Hb as [|q before Hq Hb IH]; simpl.
  - rewrite Hp, str_eqb_refl. destruct (Phone.init new_phone); reflexivity.
  - apply str_eqb_neq in Hq. rewrite Hq, IH.
    destruct (Phone.init new_phone); reflexivity.
Qed.

Lemma change_phone_loop_missing (phones : list Phone.t)
  (old_phone new_phone : pystr) :
  Forall (fun q => Phone.value q <> old_phone) phones ->
  Record.change_phone_loop phones old_phone new_phone = Exc Record.NotFound.
Proof.
  induction 1 as [|q phones Hq _ IH]; simpl; [reflexivity|].
  apply str_eqb_neq in Hq. rewrite Hq, IH. reflexivity.
Qed.

(** C4: [change_phone] replaces the first phone equal to [old_phone] by a
    validated phone built from [new_phone] and leaves the other phones,
    the name and the birthday as they were; when [new_phone] is refused the
    validation error is raised; when no phone equals [old_phone] it fails
    with the NotFound error; on phones ["1111111111"] the call with
    ("1111111111", "2222222222") gives phones ["2222222222"]. *)
Theorem C4_change_phone_spec (r : Record.t) (old_phone new_phone : pystr) :
  (forall before p after,
      Record.phones r = before ++ p :: after ->
      Forall (fun q => Phone.value q <> old_phone) before ->
      Phone.value p = old_phone ->
      (forall n, Phone.init new_phone = Ret n ->
         Phone.value n = new_phone /\
         Record.change_phone r old_phone new_phone
         = Ret {| Record.name := Record.name r;
                  Record.phones := before ++ n :: after;
                  Record.birthday := Record.birthday r |})
      /\ (forall e, Phone.init new_phone = Exc e ->
            Record.change_phone r old_phone new_phone = Exc e))
  /\ (Forall (fun q => Phone.value q <> old_phone) (Record.phones r) ->
      Record.change_phone r old_phone new_phone = Exc Record.NotFound)
  /\ (exists r',
        Record.change_phone one_phone_record (lit "1111111111")
          (lit "2222222222") = Ret r'
        /\ map Phone.value (Record.phones r') = [lit "2222222222"]).
Proof.
  split; [|split].
  - intros before p after E Hb Hp. unfold Record.change_phone.
    rewrite E, (change_phone_loop_found before after p _ _ Hb Hp).
    split.
    + intros n Hn. rewrite Hn. simpl. split; [|reflexivity].
      apply Phone_init_value. exact Hn.
    + intros e He. rewrite He. reflexivity.
  - intros H. unfold Record.change_phone.
    rewrite (change_phone_loop_missing _ _ _ H). reflexivity.
  - eexists. split; reflexivity.
Qed.

Lemma C4_change_phone_witness :
  Record.change_phone one_phone_record (lit "1111111111") (lit "2222222222")
  = Ret {| Record.name := Name.init (lit "Ann");
           Record.phones := [ {| Phone.value := lit "2222222222" |} ];
           Record.birthday := None |}.
Proof.
  destruct (C4_change_phone_spec one_phone_record (lit "1111111111")
              (lit "2222222222")) as [H _].
  destruct (H [] {| Phone.value := lit "1111111111" |} [] eq_refl
              (Forall_nil _) eq_refl) as [H1 _].
  exact (proj2 (H1 {| Phone.value := lit "2222222222" |} eq_refl)).
Defined.

(** ** The [add] handler *)

(** C9: when [add] is given a name the book does not hold and a phone
    that [Phone] refuses, the handler reports the validation error and the
    book is exactly the book it was given: the record built for the name is
    never inserted. *)
Theorem C9_add_invalid_phone_leaves_book (name phone : pystr)
  (book : AddressBook.t) :
  AddressBook.get book name = None ->
  is_exc (Phone.init phone) = true ->
  add_contact_func ([name; phone], book) = (Exc Phone.InvalidFormat, book)
  /\ add_contact ([name; phone], book)
     = (Ret (lit "Error: Phone number must be 10 digits."), book)
  /\ AddressBook.get (snd (add_contact ([name; phone], book))) name = None.
Proof.
  intros G E.
  assert (P : Phone.init phone = Exc Phone.InvalidFormat).
  { destruct (Phone_init_cases phone) as [D|D]; auto.
    rewrite D in E; discriminate. }
  assert (F : add_contact_func ([name; phone], book)
              = (Exc Phone.InvalidFormat, book)).
  { unfold add_contact_func, Record.add_phone. rewrite G, P. reflexivity. }
  assert (W : add_contact ([name; phone], book)
              = (Ret (lit "Error: Phone number must be 10 digits."), book)).
  { unfold add_contact, input_error. rewrite F. reflexivity. }
  split; [exact F | split; [exact W |]].
  rewrite W. exact G.
Qed.

Lemma C9_add_invalid_phone_witness :
  add_contact ([lit "John"; lit "12345"], AddressBook.empty)
  = (Ret (lit "Error: Phone number must be 10 digits."), AddressBook.empty).
Proof.
  apply (C9_add_invalid_phone_leaves_book (lit "John") (lit "12345")
           AddressBook.empty); reflexivity.
Defined.

(** ** Unknown commands *)

Lemma lookup_commands_none (today : date.t) (command : pystr) :
  mem command recognized = false -> lookup command (commands today) = None.
Proof.
  unfold recognized, commands. cbn [mem lookup].
  repeat rewrite orb_false_iff. intros H.
  repeat match goal with H : _ /\ _ |- _ => destruct H end.
  repeat match goal with H : str_eqb _ _ = false |- _ => rewrite H; clear H end.
  reflexivity.
Qed.

(** C8: a line whose first word, lower-cased, is none of the recognised
    commands prints exactly the unknown-command message, the loop goes on
    and the book is the book it was. *)
Theorem C8_unknown_command (lower : pystr -> pystr) (today : date.t)
  (line : pystr) (book : AddressBook.t) (word : pystr) (args : list pystr) :
  split (strip line) = word :: args ->
  mem (lower word) recognized = false ->
  main_turn lower today line book
  = Continue [lit "Unknown command. Try again."] book.
Proof.
  intros S M. unfold main_turn. rewrite S.
  rewrite (lookup_commands_none today _ M).
  unfold recognized in M. cbn [mem] in M.
  repeat rewrite orb_false_iff in M.
  repeat match goal with H : _ /\ _ |- _ => destruct H end.
  cbn [mem].
  repeat match goal with H : str_eqb _ _ = false |- _ => rewrite H; clear H end.
  reflexivity.
Qed.

Lemma C8_unknown_command_witness :
  main_turn ascii_lower
    {| date.year := 2024; date.month := 6; date.day := 10 |}
    (lit "  Remove John ") [(lit "John", Record.init (lit "John"))]
  = Continue [lit "Unknown command. Try again."]
      [(lit "John", Record.init (lit "John"))].
Proof.
  apply (C8_unknown_command ascii_lower _ (lit "  Remove John ") _
           (lit "Remove") [lit "John"]); reflexivity.
Defined.

(** ** Dates *)

Lemma month_cases (m : Z) :
  1 <= m <= 12 ->
  m = 1 \/ m = 2 \/ m = 3 \/ m = 4 \/ m = 5 \/ m = 6 \/ m = 7 \/ m = 8
  \/ m = 9 \/ m = 10 \/ m = 11 \/ m = 12.
Proof. lia. Qed.

Ltac each_month H :=
  apply month_cases in H;
  repeat (destruct H as [H|H]); subst.

Lemma days_in_month_bounds (y m : Z) :
  1 <= m <= 12 -> 28 <= date.days_in_month y m <= 31.
Proof.
  intros H. unfold date.days_in_month, date.index, date.DAYS_IN_MONTH.
  each_month H; destruct (date.is_leap y); simpl; lia.
Qed.

Lemma days_through_month (y m : Z) :
  1 <= m <= 12 ->
  0 <= date.days_before_month y m
  /\ date.days_before_month y m + date.days_in_month y m
     <= 365 + date.b2z (date.is_leap y).
Proof.
  intros H. unfold date.days_before_month, date.days_in_month, date.index,
    date.DAYS_IN_MONTH, date.DAYS_BEFORE_MONTH, date.b2z.
  each_month H; destruct (date.is_leap y); simpl; lia.
Qed.

Lemma days_before_next_year (y : Z) :
  date.days_before_year (y + 1)
  = date.days_before_year y + 365 + date.b2z (date.is_leap y).
Proof.
  unfold date.days_before_year, date.is_leap, date.b2z.
  replace (y + 1 - 1) with y by lia.
  destruct (y mod 4 =? 0) eqn:E4; destruct (y mod 100 =? 0) eqn:E100;
    destruct (y mod 400 =? 0) eqn:E400; cbn [andb orb negb];
    rewrite ?Z.eqb_eq, ?Z.eqb_neq in *;
    Z.div_mod_to_equations; lia.
Qed.

Lemma days_before_year_bounds (y : Z) :
  1 <= y <= 10000 -> 0 <= date.days_before_year y <= date.MAXORDINAL.
Proof.
  intros H. unfold date.days_before_year, date.MAXORDINAL.
  Z.div_mod_to_equations. lia.
Qed.

Lemma new_valid (d : date.t) :
  date.valid d -> date.new (date.year d) (date.month d) (date.day d) = Ret d.
Proof.
  unfold date.valid, date.new, date.MINYEAR, date.MAXYEAR.
  intros (Hy & Hm & Hd).
  replace ((1 <=? date.year d) && (date.year d <=? 9999)) with true by
    (symmetry; apply andb_true_iff; split; apply Z.leb_le; lia).
  replace ((1 <=? date.month d) && (date.month d <=? 12)) with true by
    (symmetry; apply andb_true_iff; split; apply Z.leb_le; lia).
  replace ((1 <=? date.day d)
           && (date.day d <=? date.days_in_month (date.year d) (date.month d)))
    with true by
    (symmetry; apply andb_true_iff; split; apply Z.leb_le; lia).
  destruct d; reflexivity.
Qed.

Lemma new_ret (y m d : Z) (x : date.t) :
  date.new y m d = Ret x ->
  x = {| date.year := y; date.month := m; date.day := d |} /\ date.valid x.
Proof.
  unfold date.new, date.valid, date.MINYEAR, date.MAXYEAR.
  destruct ((1 <=? y) && (y <=? 9999)) eqn:Ey; cbn [negb]; [|discriminate].
  destruct ((1 <=? m) && (m <=? 12)) eqn:Em; cbn [negb]; [|discriminate].
  destruct ((1 <=? d) && (d <=? date.days_in_month y m)) eqn:Ed;
    cbn [negb]; [|discriminate].
  intros [= <-]. cbn.
  apply andb_true_iff in Ey, Em, Ed.
  rewrite !Z.leb_le in *. tauto.
Qed.

Lemma toordinal_bounds (d : date.t) :
  date.valid d -> 1 <= date.toordinal d <= date.MAXORDINAL.
Proof.
  intros (Hy & Hm & Hd). unfold date.MINYEAR, date.MAXYEAR in Hy.
  unfold date.toordinal, date.ymd2ord.
  pose proof (days_through_month (date.year d) (date.month d) Hm) as [B1 B2].
  pose proof (days_before_next_year (date.year d)) as N.
  pose proof (days_before_year_bounds (date.year d) ltac:(lia)) as Y1.
  pose proof (days_before_year_bounds (date.year d + 1) ltac:(lia)) as Y2.
  lia.
Qed.

(** 31.12.9999 is a Friday: moving a Saturday or a Sunday to the Monday
    that follows never leaves the range of [date]. *)
Lemma weekend_shift_in_range (d : date.t) :
  date.valid d -> 5 <= date.weekday d ->
  date.add_days d (7 - date.weekday d)
  = Ret (date.fromordinal (date.toordinal d + (7 - date.weekday d))).
Proof.
  intros V W. pose proof (toordinal_bounds d V) as B.
  unfold date.add_days. unfold date.weekday in *.
  unfold date.MAXORDINAL in *.
  set (o := date.toordinal d) in *.
  assert (0 < o + (7 - (o + 6) mod 7) <= 3652059)
    by (Z.div_mod_to_equations; lia).
  replace (0 <? o + (7 - (o + 6) mod 7)) with true
    by (symmetry; apply Z.ltb_lt; lia).
  replace (o + (7 - (o + 6) mod 7) <=? 3652059) with true
    by (symmetry; apply Z.leb_le; lia).
  reflexivity.
Qed.

Lemma bounded_check (f : Z -> bool) (k : nat) :
  forallb f (map Z.of_nat (seq 0 k)) = true ->
  forall n, 0 <= n < Z.of_nat k -> f n = true.
Proof.
  intros H n Hn. rewrite forallb_forall in H. apply H.
  apply in_map_iff. exists (Z.to_nat n). split; [lia|].
  apply in_seq. lia.
Qed.

Lemma month_day_check_all (leap : bool) (n : Z) :
  0 <= n < 365 -> month_day_check leap n = true.
Proof.
  intros H. destruct leap.
  - apply (bounded_check (month_day_check true) 365); [vm_compute; reflexivity | exact H].
  - apply (bounded_check (month_day_check false) 365); [vm_compute; reflexivity | exact H].
Qed.

Lemma days_before_year_decomp (a b c e : Z) :
  0 <= b <= 3 -> 0 <= c <= 24 -> 0 <= e <= 3 ->
  date.days_before_year (400 * a + 100 * b + 4 * c + e + 1)
  = 146097 * a + 36524 * b + 1461 * c + 365 * e.
Proof.
  intros. unfold date.days_before_year.
  replace (400 * a + 100 * b + 4 * c + e + 1 - 1) with (400 * a + 100 * b + 4 * c + e) by lia.
  Z.div_mod_to_equations. lia.
Qed.

Lemma is_leap_decomp (a b c e : Z) :
  0 <= b <= 3 -> 0 <= c <= 24 -> 0 <= e <= 3 ->
  date.is_leap (400 * a + 100 * b + 4 * c + e + 1)
  = (e =? 3) && (negb (c =? 24) || (b =? 3)).
Proof.
  intros. unfold date.is_leap.
  destruct (e =? 3) eqn:E3; destruct (c =? 24) eqn:E24; destruct (b =? 3) eqn:Eb;
  rewrite ?Z.eqb_eq, ?Z.eqb_neq in *; cbn [negb orb andb];
  repeat match goal with
  | |- context [?x =? 0] => let E := fresh in destruct (x =? 0) eqn:E; rewrite ?Z.eqb_eq, ?Z.eqb_neq in E
  end; cbn [negb orb andb]; try reflexivity; exfalso; Z.div_mod_to_equations; lia.
Qed.

Lemma ord2ymd_sound (n : Z) :
  1 <= n <= date.MAXORDINAL ->
  date.valid (date.ord2ymd n) /\ date.toordinal (date.ord2ymd n) = n.
Proof.
  intros Hn. unfold date.MAXORDINAL in Hn.
  unfold date.ord2ymd, date.DI400Y, date.DI100Y, date.DI4Y. cbv zeta.
  set (n0 := n - 1).
  set (a := n0 / 146097). set (r := n0 mod 146097).
  set (b := r / 36524). set (r2 := r mod 36524).
  set (c := r2 / 1461). set (r3 := r2 mod 1461).
  set (e := r3 / 365). set (r4 := r3 mod 365).
  assert (F : n = 146097 * a + r + 1 /\ 0 <= r < 146097
              /\ r = 36524 * b + r2 /\ 0 <= r2 < 36524
              /\ r2 = 1461 * c + r3 /\ 0 <= r3 < 1461
              /\ r3 = 365 * e + r4 /\ 0 <= r4 < 365).
  { subst a r b r2 c r3 e r4 n0. Z.div_mod_to_equations. lia. }
  clearbody a r b r2 c r3 e r4. clear n0.
  destruct F as (En & Br & Er & Br2 & Er2 & Br3 & Er3 & Br4).
  assert (Bb : 0 <= b <= 4) by lia.
  assert (Bc : 0 <= c <= 24) by lia.
  assert (Be : 0 <= e <= 4) by lia.
  assert (Ba : 0 <= a <= 24) by lia.
  destruct ((e =? 4) || (b =? 4)) eqn:Last.
  - (* the last day of a leap year *)
    apply orb_true_iff in Last. rewrite !Z.eqb_eq in Last.
    assert (Y : a * 400 + 1 + (b * 100 + c * 4 + e) - 1
                = 400 * a + 100 * (if b =? 4 then 3 else b)
                  + 4 * (if b =? 4 then 24 else c) + 3 + 1).
    { destruct (b =? 4) eqn:E4; rewrite ?Z.eqb_eq, ?Z.eqb_neq in E4; lia. }
    rewrite Y.
    set (b' := if b =? 4 then 3 else b) in *.
    set (c' := if b =? 4 then 24 else c) in *.
    assert (Bb' : 0 <= b' <= 3)
      by (unfold b'; destruct (b =? 4) eqn:E4;
          rewrite ?Z.eqb_eq, ?Z.eqb_neq in E4; lia).
    assert (Bc' : 0 <= c' <= 24)
      by (unfold c'; destruct (b =? 4) eqn:E4;
          rewrite ?Z.eqb_eq, ?Z.eqb_neq in E4; lia).
    assert (En' : n = 146097 * a + 36524 * b' + 1461 * c' + 1461).
    { unfold b', c'. destruct (b =? 4) eqn:E4;
        rewrite ?Z.eqb_eq, ?Z.eqb_neq in E4; lia. }
    assert (Lp : (negb (c' =? 24) || (b' =? 3)) = true).
    { destruct (c' =? 24) eqn:E24; [|reflexivity].
      destruct (b' =? 3) eqn:E3; [reflexivity|].
      rewrite ?Z.eqb_eq, ?Z.eqb_neq in *.
      unfold b', c' in *. destruct (b =? 4) eqn:E4;
        rewrite ?Z.eqb_eq, ?Z.eqb_neq in E4; lia. }
    clearbody b' c'.
    unfold date.valid, date.toordinal, date.ymd2ord, date.days_in_month,
      date.days_before_month, date.MINYEAR, date.MAXYEAR.
    cbn [date.year date.month date.day].
    rewrite (is_leap_decomp a b' c' 3), (days_before_year_decomp a b' c' 3)
      by lia.
    rewrite Lp. replace (3 =? 3) with true by reflexivity.
    cbn [andb]. 
    replace (12 =? 2) with false by reflexivity.
    replace (2 <? 12) with true by reflexivity. cbn [andb date.b2z].
    replace (date.index date.DAYS_IN_MONTH 12) with 31 by reflexivity.
    replace (date.index date.DAYS_BEFORE_MONTH 12) with 334 by reflexivity.
    lia.
  - apply orb_false_iff in Last. rewrite !Z.eqb_neq in Last.
    set (leap := (e =? 3) && (negb (c =? 24) || (b =? 3))).
    pose proof (month_day_check_all leap r4 ltac:(lia)) as M.
    unfold month_day_check in M. cbv zeta in M.
    assert (Y : a * 400 + 1 + (b * 100 + c * 4 + e)
                = 400 * a + 100 * b + 4 * c + e + 1) by lia.
    rewrite Y.
    pose proof (is_leap_decomp a b c e ltac:(lia) ltac:(lia) ltac:(lia)) as IL.
    pose proof (days_before_year_decomp a b c e ltac:(lia) ltac:(lia)
                  ltac:(lia)) as DY.
    fold leap in IL.
    set (m := Z.shiftr (r4 + 50) 5) in *.
    set (preceding := date.index date.DAYS_BEFORE_MONTH m
                      + date.b2z ((2 <? m) && leap)) in *.
    destruct (r4 <? preceding);
      unfold date.valid, date.toordinal, date.ymd2ord, date.days_in_month,
        date.days_before_month, date.MINYEAR, date.MAXYEAR;
      cbn [date.year date.month date.day];
      rewrite IL, DY;
      rewrite !andb_true_iff, !Z.leb_le, Z.eqb_eq in M;
      destruct M as ((((M1 & M2) & M3) & M4) & M5); lia.
Qed.

Lemma fromordinal_sound (n : Z) :
  1 <= n <= date.MAXORDINAL ->
  date.valid (date.fromordinal n) /\ date.toordinal (date.fromordinal n) = n.
Proof. apply ord2ymd_sound. Qed.

(** ** Upcoming birthdays *)

Lemma replace_year_valid (d : date.t) (y : Z) (x : date.t) :
  date.replace_year d y = Ret x ->
  date.valid x /\ date.year x = y /\ date.month x = date.month d
  /\ date.day x = date.day d.
Proof.
  unfold date.replace_year. intros H. apply new_ret in H.
  destruct H as [-> V]. auto.
Qed.

Lemma next_occurrence_valid (today bday occ : date.t) :
  next_occurrence today bday = Ret occ ->
  date.valid occ /\ date.month occ = date.month bday
  /\ date.day occ = date.day bday.
Proof.
  unfold next_occurrence.
  destruct (date.replace_year bday (date.year today)) as [this|e] eqn:E1;
    [|discriminate].
  cbn [bind]. apply replace_year_valid in E1.
  destruct E1 as (V1 & _ & M1 & D1).
  destruct (date.ltb this today).
  - intros E2. apply replace_year_valid in E2.
    destruct E2 as (V2 & _ & M2 & D2). repeat split; try apply V2; congruence.
  - intros [= <-]. repeat split; try apply V1; congruence.
Qed.

(** What the loop body does with a record, in terms of the occurrence:
    no birthday, nothing; otherwise the occurrence is kept when it is at
    most 7 days after [today], moved off the weekend. *)
Lemma upcoming_of_eq (today : date.t) (record : Record.t) :
  AddressBook.upcoming_of today record
  = match Record.birthday record with
    | None => Ret None
    | Some b =>
        bday <- strptime.parse (Birthday.value b) ;;
        occ <- next_occurrence today bday ;;
        Ret (if date.sub_days occ today <=? 7
             then Some (Name.value (Record.name record),
                        date.strftime (shift_weekend occ))
             else None)
    end.
Proof.
  unfold AddressBook.upcoming_of.
  destruct (Record.birthday record) as [b|]; [|reflexivity].
  destruct (strptime.parse (Birthday.value b)) as [bday|e]; [|reflexivity].
  cbn [bind].
  assert (K : forall (m : res date.t),
             (forall occ, m = Ret occ -> date.valid occ) ->
             (bday_this_year <- m ;;
              (if date.sub_days bday_this_year today <=? 7
               then
                 congrats_date <-
                   (if 5 <=? date.weekday bday_this_year
                    then date.add_days bday_this_year
                           (7 - date.weekday bday_this_year)
                    else Ret bday_this_year) ;;
                 Ret (Some (Name.value (Record.name record),
                            date.strftime congrats_date))
               else Ret None))
             = (occ <- m ;;
                Ret (if date.sub_days occ today <=? 7
                     then Some (Name.value (Record.name record),
                                date.strftime (shift_weekend occ))
                     else None))).
  { intros [occ|e] V; [|reflexivity]. cbn [bind].
    destruct (date.sub_days occ today <=? 7); [|reflexivity].
    unfold shift_weekend.
    destruct (5 <=? date.weekday occ) eqn:W; [|reflexivity].
    apply Z.leb_le in W.
    rewrite (weekend_shift_in_range occ (V occ eq_refl) W). reflexivity. }
  unfold next_occurrence.
  destruct (date.replace_year bday (date.year today)) as [this|e] eqn:E1;
    [|reflexivity].
  cbn [bind].
  apply K. intros occ Hocc.
  apply (next_occurrence_valid today bday occ).
  unfold next_occurrence. rewrite E1. exact Hocc.
Qed.

Lemma upcoming_loop_acc (today : date.t) (records : list Record.t) :
  forall acc l,
    AddressBook.upcoming_loop today records acc = Ret l ->
    (forall p, In p acc -> In p l)
    /\ (forall record p,
           In record records ->
           AddressBook.upcoming_of today record = Ret (Some p) -> In p l).
Proof.
  induction records as [|r records IH]; intros acc l; simpl.
  - intros [= <-]. split; [auto | intros ? ? []].
  - destruct (AddressBook.upcoming_of today r) as [o|e] eqn:E; [|discriminate].
    cbn [bind]. intros H. apply IH in H. destruct H as [H1 H2]. split.
    + intros p Hp. apply H1. destruct o; [apply in_or_app|]; auto.
    + intros record p [<-|Hin] Hrec.
      * rewrite E in Hrec. injection Hrec as ->.
        apply H1, in_or_app. right; left; reflexivity.
      * eapply H2; eauto.
Qed.

Lemma ltb_irrefl (d : date.t) : date.ltb d d = false.
Proof.
  unfold date.ltb. rewrite !Z.ltb_irrefl, !Z.eqb_refl. reflexivity.
Qed.

(** The weekend rule: a Saturday moves 2 days and a Sunday 1 day, both to
    a Monday that is still a date; other days stay. *)
Lemma shift_weekend_spec (d : date.t) :
  date.valid d ->
  date.valid (shift_weekend d)
  /\ (date.weekday d = 5 ->
      date.sub_days (shift_weekend d) d = 2
      /\ date.weekday (shift_weekend d) = 0)
  /\ (date.weekday d = 6 ->
      date.sub_days (shift_weekend d) d = 1
      /\ date.weekday (shift_weekend d) = 0)
  /\ (date.weekday d < 5 -> shift_weekend d = d).
Proof.
  intros V. pose proof (toordinal_bounds d V) as B.
  unfold shift_weekend, date.sub_days.
  destruct (5 <=? date.weekday d) eqn:W.
  - apply Z.leb_le in W.
    assert (R : 1 <= date.toordinal d + (7 - date.weekday d)
                <= date.MAXORDINAL).
    { unfold date.weekday, date.MAXORDINAL in *.
      Z.div_mod_to_equations. lia. }
    destruct (fromordinal_sound _ R) as [V' O'].
    split; [exact V'|].
    unfold date.weekday at 3 5. rewrite O'.
    unfold date.weekday in *.
    repeat split; intros; try (Z.div_mod_to_equations; lia).
  - apply Z.leb_gt in W. repeat split; try apply V; intros; lia.
Qed.

(** A birthday whose day and month are today's is not rolled forward
    (the test for "already passed" is strict), is zero days away and is in
    the result of [get_upcoming_birthdays], whenever that call returns, as
    the pair of the name and today's date moved off the weekend; and an
    occurrence exactly 7 days away is kept as well. *)
Lemma birthday_today_included (today : date.t) (record : Record.t)
  (b : Birthday.t) (bday : date.t) :
  date.valid today ->
  Record.birthday record = Some b ->
  strptime.parse (Birthday.value b) = Ret bday ->
  date.month bday = date.month today ->
  date.day bday = date.day today ->
  let entry := (Name.value (Record.name record),
                date.strftime (shift_weekend today)) in
  next_occurrence today bday = Ret today
  /\ date.sub_days today today = 0
  /\ AddressBook.upcoming_of today record = Ret (Some entry)
  /\ (forall book l,
         In record (AddressBook.values book) ->
         AddressBook.get_upcoming_birthdays today book = Ret l -> In entry l)
  /\ (forall key,
         AddressBook.get_upcoming_birthdays today [(key, record)]
         = Ret [entry])
  /\ (forall record' b' bday' occ,
         Record.birthday record' = Some b' ->
         strptime.parse (Birthday.value b') = Ret bday' ->
         next_occurrence today bday' = Ret occ ->
         date.sub_days occ today = 7 ->
         AddressBook.upcoming_of today record'
         = Ret (Some (Name.value (Record.name record'),
                      date.strftime (shift_weekend occ)))).
Proof.
  intros V Hb Hp Hm Hd entry.
  assert (N : next_occurrence today bday = Ret today).
  { unfold next_occurrence, date.replace_year. rewrite Hm, Hd.
    rewrite (new_valid today V). cbn [bind]. rewrite ltb_irrefl. reflexivity. }
  assert (Z0 : date.sub_days today today = 0) by (unfold date.sub_days; lia).
  assert (U : AddressBook.upcoming_of today record = Ret (Some entry)).
  { rewrite upcoming_of_eq, Hb, Hp. cbn [bind]. rewrite N. cbn [bind].
    rewrite Z0. reflexivity. }
  repeat split; auto.
  - intros book l Hin Hl.
    apply (proj2 (upcoming_loop_acc today _ _ _ Hl) record entry Hin U).
  - intros key. unfold AddressBook.get_upcoming_birthdays. simpl.
    rewrite U. reflexivity.
  - intros record' b' bday' occ Hb' Hp' Ho Hs.
    rewrite upcoming_of_eq, Hb', Hp'. cbn [bind]. rewrite Ho. cbn [bind].
    rewrite Hs. reflexivity.
Qed.

Lemma birthday_today_included_example :
  AddressBook.upcoming_of monday_10_06_2024 (contact "Ann" "10.06.1990")
  = Ret (Some (lit "Ann", lit "10.06.2024")).
Proof.
  refine (proj1 (proj2 (proj2
    (birthday_today_included monday_10_06_2024
       (contact "Ann" "10.06.1990") {| Birthday.value := lit "10.06.1990" |}
       {| date.year := 1990; date.month := 6; date.day := 10 |}
       _ eq_refl eq_refl eq_refl eq_refl)))).
  repeat split; vm_compute; discriminate.
Defined.

(** The examples of the specification: on Monday 10.06.2024 a birthday on
    15.06 (a Saturday) is announced for Monday 17.06.2024 and a birthday on
    01.01 is left out. *)
Lemma upcoming_examples :
  AddressBook.get_upcoming_birthdays monday_10_06_2024
    [ (lit "John", contact "John" "15.06.1990");
      (lit "Ann", contact "Ann" "01.01.1990") ]
  = Ret [ (lit "John", lit "17.06.2024") ].
Proof. vm_compute. reflexivity. Qed.

(** C1 fails on the code for a birthday on 29 February: the commands
    [add-birthday John 15.06.1990] and [add-birthday Bob 29.02.2000] are
    accepted and build [leap_day_book]; on 10.06.2024 this year's occurrence
    of Bob's birthday has passed and [replace(year=2025)] raises
    [ValueError], so [get_upcoming_birthdays] returns no list at all, not
    even John's reminder, and the [birthdays] command prints an error. *)
Theorem C1_leap_day_birthday_raises :
  (exists p1 p2 book1,
      main_turn ascii_lower monday_10_06_2024
        (lit "add-birthday John 15.06.1990") AddressBook.empty
      = Continue p1 book1
      /\ main_turn ascii_lower monday_10_06_2024
           (lit "add-birthday Bob 29.02.2000") book1
         = Continue p2 leap_day_book)
  /\ AddressBook.get_upcoming_birthdays monday_10_06_2024 leap_day_book
     = Exc (Raise ValueError (lit "day is out of range for month"))
  /\ main_turn ascii_lower monday_10_06_2024 (lit "birthdays") leap_day_book
     = Continue [lit "Error: day is out of range for month"] leap_day_book
  /\ AddressBook.upcoming_of monday_10_06_2024 (contact "John" "15.06.1990")
     = Ret (Some (lit "John", lit "17.06.2024")).
Proof.
  split; [|split; [|split]].
  - do 3 eexists. split; vm_compute; reflexivity.
  - vm_compute. reflexivity.
  - vm_compute. reflexivity.
  - vm_compute. reflexivity.
Qed.

(** C10 fails on the code when a 29 February birthday is on file: the
    commands [add-birthday Ann 10.06.1990] and [add-birthday Bob 29.02.2000]
    build [today_and_leap_day_book]; on 10.06.2024 Ann's birthday is today,
    the loop body keeps it (not rolled forward, zero days away), but Bob's
    record makes [replace(year=2025)] raise, so [get_upcoming_birthdays]
    returns no list and Ann is in no result; [birthdays] prints the error.
    It is the defect reported under C1. *)
Theorem C10_today_birthday_lost_to_leap_day :
  reachable today_and_leap_day_book
  /\ AddressBook.upcoming_of monday_10_06_2024 (contact "Ann" "10.06.1990")
     = Ret (Some (lit "Ann", lit "10.06.2024"))
  /\ AddressBook.get_upcoming_birthdays monday_10_06_2024
       today_and_leap_day_book
     = Exc (Raise ValueError (lit "day is out of range for month"))
  /\ main_turn ascii_lower monday_10_06_2024 (lit "birthdays")
       today_and_leap_day_book
     = Continue [lit "Error: day is out of range for month"]
         today_and_leap_day_book.
Proof.
  split; [|split; [|split]].
  - apply (reach_turn ascii_lower monday_10_06_2024
             (lit "add-birthday Bob 29.02.2000")
             [(lit "Ann", contact "Ann" "10.06.1990")]
             [lit "Birthday added for Bob."]).
    + apply (reach_turn ascii_lower monday_10_06_2024
               (lit "add-birthday Ann 10.06.1990") AddressBook.empty
               [lit "Birthday added for Ann."] _ reach_empty).
      vm_compute. reflexivity.
    + vm_compute. reflexivity.
  - vm_compute. reflexivity.
  - vm_compute. reflexivity.
  - vm_compute. reflexivity.
Qed.

(** ** The invariant of the directory *)

Lemma Phone_init_ok (s : pystr) (p : Phone.t) :
  Phone.init s = Ret p -> phone_ok p.
Proof.
  intros E. pose proof (Phone_init_value s p E) as V.
  destruct (Phone_init_cases s) as [D|D]; rewrite D in E; [discriminate|].
  apply Phone_init_ret_iff in D. unfold phone_ok. rewrite V. exact D.
Qed.

Lemma Birthday_init_ret (s : pystr) (b : Birthday.t) :
  Birthday.init s = Ret b ->
  b = {| Birthday.value := s |} /\ exists d, strptime.parse s = Ret d.
Proof.
  unfold Birthday.init.
  destruct (strptime.parse s) as [d|[[] msg]]; try discriminate.
  intros [= <-]. split; [reflexivity | exists d; reflexivity].
Qed.

Lemma Birthday_init_ok (s : pystr) (b : Birthday.t) :
  Birthday.init s = Ret b -> birthday_ok b.
Proof.
  intros E. apply Birthday_init_ret in E. destruct E as [-> H]. exact H.
Qed.

Lemma record_init_ok (name : pystr) : record_ok (Record.init name).
Proof. split; [constructor | discriminate]. Qed.

Lemma add_phone_ok (r r' : Record.t) (phone : pystr) :
  record_ok r -> Record.add_phone r phone = Ret r' -> record_ok r'.
Proof.
  intros [Hp Hb]. unfold Record.add_phone.
  destruct (Phone.init phone) as [p|e] eqn:E; [|discriminate].
  intros [= <-]. split; cbn; auto.
  apply Forall_app. split; auto. constructor; [|constructor].
  eapply Phone_init_ok; eauto.
Qed.

Lemma change_phone_loop_ok (phones phones' : list Phone.t) (old new : pystr) :
  Forall phone_ok phones ->
  Record.change_phone_loop phones old new = Ret phones' ->
  Forall phone_ok phones' /\ List.length phones' = List.length phones.
Proof.
  intros H. revert phones'.
  induction H as [|p phones Hp H IH]; intros phones'; simpl; [discriminate|].
  destruct (str_eqb (Phone.value p) old).
  - destruct (Phone.init new) as [n|e] eqn:E; [|discriminate].
    intros [= <-]. split; [|reflexivity].
    constructor; auto. eapply Phone_init_ok; eauto.
  - destruct (Record.change_phone_loop phones old new) as [rest|e];
      [|discriminate].
    intros [= <-]. destruct (IH rest eq_refl) as [I1 I2].
    split; [constructor; auto | simpl; congruence].
Qed.

Lemma change_phone_ok (r r' : Record.t) (old new : pystr) :
  record_ok r -> Record.change_phone r old new = Ret r' -> record_ok r'.
Proof.
  intros [Hp Hb]. unfold Record.change_phone.
  destruct (Record.change_phone_loop (Record.phones r) old new)
    as [phones'|e] eqn:E; [|discriminate].
  intros [= <-]. split; cbn; auto.
  eapply change_phone_loop_ok; eauto.
Qed.

Lemma add_birthday_ok (r r' : Record.t) (b : pystr) :
  record_ok r -> Record.add_birthday r b = Ret r' -> record_ok r'.
Proof.
  intros [Hp Hb]. unfold Record.add_birthday.
  destruct (Birthday.init b) as [b'|e] eqn:E; [|discriminate].
  intros [= <-]. split; cbn; auto.
  intros b0 [= <-]. eapply Birthday_init_ok; eauto.
Qed.

Lemma get_ok (book : AddressBook.t) (key : pystr) (r : Record.t) :
  Forall record_ok (AddressBook.values book) ->
  AddressBook.get book key = Some r -> record_ok r.
Proof.
  induction book as [|[k r0] book IH]; simpl; [discriminate|].
  intros H. inversion H as [|? ? H1 H2]; subst.
  destruct (str_eqb k key); [intros [= <-]; auto | auto].
Qed.

Lemma keys_setitem_in (book : AddressBook.t) (key x : pystr) (r : Record.t) :
  In x (AddressBook.keys (AddressBook.setitem book key r)) ->
  In x (AddressBook.keys book) \/ x = key.
Proof.
  induction book as [|[k r0] book IH]; simpl.
  - intros [<-|[]]; auto.
  - destruct (str_eqb k key) eqn:E; simpl.
    + tauto.
    + intros [<-|H]; auto. destruct (IH H); auto.
Qed.

Lemma setitem_nodup (book : AddressBook.t) (key : pystr) (r : Record.t) :
  NoDup (AddressBook.keys book) ->
  NoDup (AddressBook.keys (AddressBook.setitem book key r)).
Proof.
  induction book as [|[k r0] book IH]; simpl.
  - intros _. constructor; [intros [] | constructor].
  - intros H. inversion H as [|? ? Hn Hd]; subst.
    destruct (str_eqb k key) eqn:E; simpl.
    + constructor; auto.
    + constructor; auto. intros Hin.
      apply keys_setitem_in in Hin. destruct Hin as [Hin| ->]; auto.
      rewrite str_eqb_refl in E. discriminate.
Qed.

Lemma setitem_values (P : Record.t -> Prop) (book : AddressBook.t)
  (key : pystr) (r : Record.t) :
  Forall P (AddressBook.values book) -> P r ->
  Forall P (AddressBook.values (AddressBook.setitem book key r)).
Proof.
  intros H Hr. induction book as [|[k r0] book IH]; simpl.
  - constructor; auto.
  - inversion H; subst. destruct (str_eqb k key); simpl; constructor; auto.
Qed.

Lemma setitem_ok (book : AddressBook.t) (key : pystr) (r : Record.t) :
  book_ok book -> record_ok r -> book_ok (AddressBook.setitem book key r).
Proof.
  intros [H1 H2] Hr. split;
    [apply setitem_nodup | apply setitem_values]; auto.
Qed.

Lemma add_record_ok (book : AddressBook.t) (r : Record.t) :
  book_ok book -> record_ok r -> book_ok (AddressBook.add_record book r).
Proof. apply setitem_ok. Qed.

Lemma input_error_book {A} (func : A -> outcome) (a : A) :
  snd (input_error func a) = snd (func a).
Proof.
  unfold input_error. destruct (func a) as [[s|[[] msg]] book]; reflexivity.
Qed.

Lemma add_contact_ok (args : list pystr) (book : AddressBook.t) :
  book_ok book -> book_ok (snd (add_contact_func (args, book))).
Proof.
  intros H. unfold add_contact_func.
  destruct args as [|name [|phone [|? ?]]]; auto.
  destruct (AddressBook.get book name) as [record|] eqn:G.
  - destruct (Record.add_phone record phone) as [record'|e] eqn:E; auto.
    apply setitem_ok; auto.
    eapply add_phone_ok; eauto. eapply get_ok; eauto. apply H.
  - destruct (Record.add_phone (Record.init name) phone) as [record'|e] eqn:E;
      auto.
    apply add_record_ok; auto.
    eapply add_phone_ok; eauto. apply record_init_ok.
Qed.

Lemma change_contact_ok (args : list pystr) (book : AddressBook.t) :
  book_ok book -> book_ok (snd (change_contact_func (args, book))).
Proof.
  intros H. unfold change_contact_func.
  destruct args as [|name [|old [|new [|? ?]]]]; auto.
  destruct (AddressBook.get book name) as [record|] eqn:G; auto.
  destruct (Record.change_phone record old new) as [record'|e] eqn:E; auto.
  apply setitem_ok; auto.
  eapply change_phone_ok; eauto. eapply get_ok; eauto. apply H.
Qed.

Lemma add_birthday_handler_ok (args : list pystr) (book : AddressBook.t) :
  book_ok book -> book_ok (snd (add_birthday_handler_func (args, book))).
Proof.
  intros H. unfold add_birthday_handler_func.
  destruct args as [|name [|b [|? ?]]]; auto.
  destruct (AddressBook.get book name) as [record|] eqn:G.
  - destruct (Record.add_birthday record b) as [record'|e] eqn:E; auto.
    apply setitem_ok; auto.
    eapply add_birthday_ok; eauto. eapply get_ok; eauto. apply H.
  - assert (H' : book_ok (AddressBook.add_record book (Record.init name)))
      by (apply add_record_ok; auto using record_init_ok).
    destruct (Record.add_birthday (Record.init name) b) as [record'|e] eqn:E;
      auto.
    apply setitem_ok; auto.
    eapply add_birthday_ok; eauto. apply record_init_ok.
Qed.

Lemma show_phone_book (args : list pystr) (book : AddressBook.t) :
  snd (show_phone_func (args, book)) = book.
Proof.
  unfold show_phone_func. destruct args as [|name ?]; auto.
  destruct (AddressBook.get book name); reflexivity.
Qed.

Lemma show_birthday_book (args : list pystr) (book : AddressBook.t) :
  snd (show_birthday_func (args, book)) = book.
Proof.
  unfold show_birthday_func. destruct args as [|name ?]; auto.
  destruct (AddressBook.get book name) as [r|]; auto.
  destruct (Record.birthday r); reflexivity.
Qed.

Lemma upcoming_birthdays_book (today : date.t) (book : AddressBook.t) :
  snd (upcoming_birthdays_func today book) = book.
Proof.
  unfold upcoming_birthdays_func.
  destruct (AddressBook.get_upcoming_birthdays today book) as [[|? ?]|e];
    reflexivity.
Qed.

(** The handler [main] picks for a recognised command word, applied. *)
Lemma handler_ok (today : date.t) (command : pystr) (h : handler)
  (args : list pystr) (book : AddressBook.t) :
  lookup command (commands today) = Some h ->
  book_ok book ->
  match h with
  | with_args f => book_ok (snd (f (args, book)))
  | book_only f => book_ok (snd (f book))
  end.
Proof.
  unfold commands. cbn [lookup]. intros L H.
  repeat match type of L with
         | (if ?c then _ else _) = _ => destruct c
         end;
    try discriminate; injection L as <-;
    unfold add_contact, change_contact, show_phone, show_all,
      add_birthday_handler, show_birthday, upcoming_birthdays;
    rewrite input_error_book;
    auto using add_contact_ok, change_contact_ok, add_birthday_handler_ok.
  - rewrite show_phone_book; auto.
  - rewrite show_birthday_book; auto.
  - rewrite upcoming_birthdays_book; auto.
Qed.

Lemma print_outcome_book (o : outcome) (printed : list pystr)
  (book' : AddressBook.t) :
  print_outcome o = Continue printed book' -> book' = snd o.
Proof.
  destruct o as [[s|e] book]; simpl; [intros [= _ <-]; auto | discriminate].
Qed.

Lemma main_turn_ok (lower : pystr -> pystr) (today : date.t) (line : pystr)
  (book : AddressBook.t) (printed : list pystr) (book' : AddressBook.t) :
  book_ok book ->
  main_turn lower today line book = Continue printed book' ->
  book_ok book'.
Proof.
  intros H. unfold main_turn.
  destruct (split (strip line)) as [|word args]; [intros [= _ <-]; auto|].
  destruct (mem (lower word) [lit "close"; lit "exit"]); [discriminate|].
  destruct (str_eqb (lower word) (lit "hello")); [intros [= _ <-]; auto|].
  destruct (lookup (lower word) (commands today)) as [h|] eqn:L;
    [|intros [= _ <-]; auto].
  pose proof (handler_ok today _ h args book L H) as K.
  destruct (mem (lower word) [lit "all"; lit "birthdays"]);
    destruct h as [f|f]; try discriminate;
    intros E; apply print_outcome_book in E; subst; exact K.
Qed.

Lemma reachable_ok (book : AddressBook.t) : reachable book -> book_ok book.
Proof.
  induction 1 as [|lower today line book printed book' _ IH E].
  - split; constructor.
  - eapply main_turn_ok; eauto.
Qed.

Lemma odd_book_reachable : reachable odd_book.
Proof.
  apply (reach_turn ascii_lower monday_10_06_2024
           (lit "add-birthday John 1.1.2020")
           [(lit "John",
             {| Record.name := Name.init (lit "John");
                Record.phones := [ {| Phone.value := superscript_twos |} ];
                Record.birthday := None |})]
           [lit "Birthday added for John."]).
  - apply (reach_turn ascii_lower monday_10_06_2024
             (lit "add John " ++ superscript_twos) AddressBook.empty
             [lit "Contact John updated."] _ reach_empty).
    vm_compute. reflexivity.
  - vm_compute. reflexivity.
Qed.

(** C5, as the specification states it, is false: the commands [add John]
    with ten superscript twos and [add-birthday John 1.1.2020] are both
    accepted, so a reachable book holds a phone that is not 10 decimal
    digits and a birthday that is not of the form DD.MM.YYYY; each of the
    two constraints fails on its own. *)
Lemma C5_reachable_book_breaks_spec_constraints :
  ~ (forall book, reachable book -> spec_book_ok book)
  /\ ~ (forall book r p,
          reachable book -> In r (AddressBook.values book) ->
          In p (Record.phones r) -> spec_ten_digits (Phone.value p) = true)
  /\ ~ (forall book r b,
          reachable book -> In r (AddressBook.values book) ->
          Record.birthday r = Some b ->
          spec_dd_mm_yyyy (Birthday.value b) = true).
Proof.
  split; [|split].
  - intros H. destruct (H odd_book odd_book_reachable) as [_ F].
    apply Forall_inv in F. destruct F as [_ B].
    specialize (B _ eq_refl). vm_compute in B. discriminate.
  - intros H.
    specialize (H odd_book _ {| Phone.value := superscript_twos |}
                  odd_book_reachable (or_introl eq_refl) (or_introl eq_refl)).
    vm_compute in H. discriminate.
  - intros H.
    specialize (H odd_book _ {| Birthday.value := lit "1.1.2020" |}
                  odd_book_reachable (or_introl eq_refl) eq_refl).
    vm_compute in H. discriminate.
Qed.

(** C5, amended: every book the program can reach keeps the invariant with
    the constraints as the constructors enforce them: each stored phone is
    ten characters that [str.isdigit] accepts, each stored birthday is a
    string [strptime] reads under the format, and no key occurs twice; and
    [add_phone], [change_phone], [add_birthday] and [add_record] each
    preserve it. *)
Theorem C5_directory_invariant :
  (forall r phone r',
      record_ok r -> Record.add_phone r phone = Ret r' -> record_ok r')
  /\ (forall r old_phone new_phone r',
         record_ok r -> Record.change_phone r old_phone new_phone = Ret r' ->
         record_ok r')
  /\ (forall r b r',
         record_ok r -> Record.add_birthday r b = Ret r' -> record_ok r')
  /\ (forall book r,
         book_ok book -> record_ok r ->
         book_ok (AddressBook.add_record book r))
  /\ (forall book, reachable book -> book_ok book).
Proof.
  split; [|split; [|split; [|split]]].
  - intros; eapply add_phone_ok; eauto.
  - intros; eapply change_phone_ok; eauto.
  - intros; eapply add_birthday_ok; eauto.
  - intros; apply add_record_ok; assumption.
  - apply reachable_ok.
Qed.

Lemma C5_directory_invariant_witness : reachable john_book /\ book_ok john_book.
Proof.
  assert (R : reachable john_book).
  { apply (reach_turn ascii_lower monday_10_06_2024
             (lit "add John 1234567890") AddressBook.empty
             [lit "Contact John updated."] john_book reach_empty).
    vm_compute. reflexivity. }
  split; [exact R |].
  exact (proj2 (proj2 (proj2 (proj2 C5_directory_invariant))) john_book R).
Defined.

(** ** Errors at the handler boundary *)

Lemma one_line_app (a b : pystr) :
  one_line (a ++ b) = one_line a && one_line b.
Proof. apply forallb_app. Qed.

Lemma dec_digits_one_line (fuel : nat) (n : Z) :
  one_line (dec_digits fuel n) = true.
Proof.
  revert n. induction fuel as [|fuel IH]; intros n; cbn [dec_digits];
    [reflexivity|].
  rewrite one_line_app. apply andb_true_iff. split.
  - destruct (n <? 10); [reflexivity | apply IH].
  - unfold one_line. cbn [forallb]. rewrite andb_true_r.
    apply negb_true_iff, Z.eqb_neq.
    pose proof (Z.mod_pos_bound n 10 ltac:(lia)). lia.
Qed.

Lemma str_of_int_one_line (n : Z) : one_line (str_of_int n) = true.
Proof. apply dec_digits_one_line. Qed.

Lemma one_line_cons (c : char) (s : pystr) :
  one_line (c :: s) = negb (c =? 10) && one_line s.
Proof. reflexivity. Qed.

Ltac solve_one_line :=
  repeat (rewrite one_line_cons || rewrite one_line_app
          || rewrite str_of_int_one_line);
  reflexivity.

Lemma new_exc (y m d : Z) (e : exn) :
  date.new y m d = Exc e -> exn_cls e = ValueError /\ one_line (exn_msg e) = true.
Proof.
  unfold date.new.
  destruct (negb ((date.MINYEAR <=? y) && (y <=? date.MAXYEAR))).
  - intros [= <-]. split; [reflexivity|]. cbn [exn_msg]. solve_one_line.
  - destruct (negb ((1 <=? m) && (m <=? 12))).
    + intros [= <-]. split; reflexivity.
    + destruct (negb ((1 <=? d) && (d <=? date.days_in_month y m)));
        [|discriminate].
      intros [= <-]. split; reflexivity.
Qed.

Lemma parse_exc (s : pystr) (e : exn) :
  strptime.parse s = Exc e ->
  exn_cls e = ValueError /\ one_line (exn_msg e) = true.
Proof.
  unfold strptime.parse.
  destruct (strptime.format_regex s) as [|[[[d m] y] rest] ?].
  - intros [= <-]. split; reflexivity.
  - destruct rest.
    + apply new_exc.
    + intros [= <-]. split; reflexivity.
Qed.

Lemma Birthday_init_cases (s : pystr) :
  Birthday.init s = Exc Birthday.InvalidFormat
  \/ Birthday.init s = Ret {| Birthday.value := s |}.
Proof.
  unfold Birthday.init.
  destruct (strptime.parse s) as [d|e] eqn:E; [right; reflexivity|].
  apply parse_exc in E. destruct E as [E _].
  destruct e as [cls msg]. cbn in E. subst cls. left; reflexivity.
Qed.

Lemma Phone_init_exc (s : pystr) (e : exn) :
  Phone.init s = Exc e -> tame e.
Proof.
  intros E. destruct (Phone_init_cases s) as [D|D]; rewrite D in E;
    [|discriminate].
  injection E as <-. split; reflexivity.
Qed.

Lemma Birthday_init_exc (s : pystr) (e : exn) :
  Birthday.init s = Exc e -> tame e.
Proof.
  intros E. destruct (Birthday_init_cases s) as [D|D]; rewrite D in E;
    [|discriminate].
  injection E as <-. split; reflexivity.
Qed.

Lemma add_phone_exc (r : Record.t) (phone : pystr) (e : exn) :
  Record.add_phone r phone = Exc e -> tame e.
Proof.
  unfold Record.add_phone.
  destruct (Phone.init phone) eqn:E; [discriminate|].
  intros [= <-]. eapply Phone_init_exc; eauto.
Qed.

Lemma change_phone_loop_exc (phones : list Phone.t) (old new : pystr)
  (e : exn) :
  Record.change_phone_loop phones old new = Exc e -> tame e.
Proof.
  induction phones as [|p phones IH]; simpl.
  - intros [= <-]. split; reflexivity.
  - destruct (str_eqb (Phone.value p) old).
    + destruct (Phone.init new) eqn:E; [discriminate|].
      intros [= <-]. eapply Phone_init_exc; eauto.
    + destruct (Record.change_phone_loop phones old new); [discriminate|].
      intros [= <-]. auto.
Qed.

Lemma change_phone_exc (r : Record.t) (old new : pystr) (e : exn) :
  Record.change_phone r old new = Exc e -> tame e.
Proof.
  unfold Record.change_phone.
  destruct (Record.change_phone_loop (Record.phones r) old new) eqn:E;
    [discriminate|].
  intros [= <-]. eapply change_phone_loop_exc; eauto.
Qed.

Lemma add_birthday_exc (r : Record.t) (b : pystr) (e : exn) :
  Record.add_birthday r b = Exc e -> tame e.
Proof.
  unfold Record.add_birthday.
  destruct (Birthday.init b) eqn:E; [discriminate|].
  intros [= <-]. eapply Birthday_init_exc; eauto.
Qed.

Lemma value_error_tame (e : exn) :
  exn_cls e = ValueError /\ one_line (exn_msg e) = true -> tame e.
Proof. intros [H1 H2]. split; [rewrite H1; reflexivity | exact H2]. Qed.

Lemma next_occurrence_exc (today bday : date.t) (e : exn) :
  next_occurrence today bday = Exc e -> tame e.
Proof.
  unfold next_occurrence, date.replace_year.
  destruct (date.new (date.year today) (date.month bday) (date.day bday))
    as [this|e1] eqn:E1; cbn [bind].
  - destruct (date.ltb this today); [|discriminate].
    intros E2. apply value_error_tame. eapply new_exc; eauto.
  - intros [= <-]. apply value_error_tame. eapply new_exc; eauto.
Qed.

Lemma upcoming_of_exc (today : date.t) (r : Record.t) (e : exn) :
  AddressBook.upcoming_of today r = Exc e -> tame e.
Proof.
  rewrite upcoming_of_eq.
  destruct (Record.birthday r) as [b|]; [|discriminate].
  destruct (strptime.parse (Birthday.value b)) as [bday|e1] eqn:E1;
    cbn [bind].
  - destruct (next_occurrence today bday) as [occ|e2] eqn:E2; cbn [bind];
      [discriminate|].
    intros [= <-]. eapply next_occurrence_exc; eauto.
  - intros [= <-]. apply value_error_tame. eapply parse_exc; eauto.
Qed.

Lemma upcoming_loop_exc (today : date.t) (records : list Record.t) :
  forall acc e,
    AddressBook.upcoming_loop today records acc = Exc e -> tame e.
Proof.
  induction records as [|r records IH]; intros acc e; simpl; [discriminate|].
  destruct (AddressBook.upcoming_of today r) as [o|e1] eqn:E1; cbn [bind].
  - apply IH.
  - intros [= <-]. eapply upcoming_of_exc; eauto.
Qed.

Lemma unpack_error_tame (expected : Z) (args : list pystr) :
  tame (unpack_error expected args).
Proof.
  unfold unpack_error. destruct (len args <? expected); split;
    try reflexivity; cbn [exn_msg]; solve_one_line.
Qed.

Lemma input_error_caught {A} (func : A -> outcome) (a : A) (cls : exn_class)
  (msg : pystr) (book : AddressBook.t) :
  func a = (Exc (Raise cls msg), book) -> caught cls = true ->
  input_error func a = (Ret (lit "Error: " ++ msg), book).
Proof.
  intros E C. unfold input_error. rewrite E.
  destruct cls; try reflexivity; discriminate.
Qed.

Lemma tame_recovers {A} (func : A -> outcome) :
  (forall a e, fst (func a) = Exc e -> tame e) -> recovers func.
Proof.
  intros T a. specialize (T a).
  destruct (func a) as [[s|[cls msg]] book] eqn:E; cbn [fst snd] in *.
  - unfold input_error. rewrite E. reflexivity.
  - destruct (T _ eq_refl) as [C L]. cbn [exn_cls exn_msg] in C, L. split.
    + apply (input_error_caught func a cls msg book E C).
    + cbn [exn_msg]. rewrite one_line_app, L. reflexivity.
Qed.

Lemma add_contact_func_tame a e : fst (add_contact_func a) = Exc e -> tame e.
Proof.
  destruct a as [args book]. unfold add_contact_func.
  destruct args as [|name [|phone [|? ?]]]; cbn [fst];
    try (intros [= <-]; apply unpack_error_tame).
  destruct (AddressBook.get book name) as [r|].
  - destruct (Record.add_phone r phone) eqn:E; cbn [fst]; [discriminate|].
    intros [= <-]. eapply add_phone_exc; eauto.
  - destruct (Record.add_phone (Record.init name) phone) eqn:E; cbn [fst];
      [discriminate|].
    intros [= <-]. eapply add_phone_exc; eauto.
Qed.

Lemma change_contact_func_tame a e :
  fst (change_contact_func a) = Exc e -> tame e.
Proof.
  destruct a as [args book]. unfold change_contact_func.
  destruct args as [|name [|old [|new [|? ?]]]]; cbn [fst];
    try (intros [= <-]; apply unpack_error_tame).
  destruct (AddressBook.get book name) as [r|]; cbn [fst].
  - destruct (Record.change_phone r old new) eqn:E; cbn [fst]; [discriminate|].
    intros [= <-]. eapply change_phone_exc; eauto.
  - intros [= <-]. split; reflexivity.
Qed.

Lemma show_phone_func_tame a e : fst (show_phone_func a) = Exc e -> tame e.
Proof.
  destruct a as [args book]. unfold show_phone_func.
  destruct args as [|name ?]; cbn [fst].
  - intros [= <-]. split; reflexivity.
  - destruct (AddressBook.get book name); cbn [fst]; [discriminate|].
    intros [= <-]. split; reflexivity.
Qed.

Lemma show_all_func_tame a e : fst (show_all_func a) = Exc e -> tame e.
Proof. discriminate. Qed.

Lemma add_birthday_handler_func_tame a e :
  fst (add_birthday_handler_func a) = Exc e -> tame e.
Proof.
  destruct a as [args book]. unfold add_birthday_handler_func.
  destruct args as [|name [|b [|? ?]]]; cbn [fst];
    try (intros [= <-]; apply unpack_error_tame).
  destruct (AddressBook.get book name) as [r|].
  - destruct (Record.add_birthday r b) eqn:E; cbn [fst]; [discriminate|].
    intros [= <-]. eapply add_birthday_exc; eauto.
  - destruct (Record.add_birthday (Record.init name) b) eqn:E; cbn [fst];
      [discriminate|].
    intros [= <-]. eapply add_birthday_exc; eauto.
Qed.

Lemma show_birthday_func_tame a e :
  fst (show_birthday_func a) = Exc e -> tame e.
Proof.
  destruct a as [args book]. unfold show_birthday_func.
  destruct args as [|name ?]; cbn [fst].
  - intros [= <-]. split; reflexivity.
  - destruct (AddressBook.get book name) as [r|]; cbn [fst].
    + destruct (Record.birthday r); discriminate.
    + intros [= <-]. split; reflexivity.
Qed.

Lemma upcoming_birthdays_func_tame today a e :
  fst (upcoming_birthdays_func today a) = Exc e -> tame e.
Proof.
  unfold upcoming_birthdays_func.
  destruct (AddressBook.get_upcoming_birthdays today a) as [[|? ?]|e1] eqn:E;
    cbn [fst]; try discriminate.
  intros [= <-]. eapply upcoming_loop_exc; eauto.
Qed.

Lemma recovers_returns {A} (func : A -> outcome) (a : A) :
  recovers func -> exists s, input_error func a = (Ret s, snd (func a)).
Proof.
  intros R. specialize (R a). destruct (fst (func a)) as [s|e].
  - eauto.
  - destruct R as [R _]. eauto.
Qed.

(** Every handler of the [commands] table returns a string. *)
Lemma handler_returns (today : date.t) (command : pystr) (h : handler)
  (args : list pystr) (book : AddressBook.t) :
  lookup command (commands today) = Some h ->
  match h with
  | with_args f => exists s b, f (args, book) = (Ret s, b)
  | book_only f => exists s b, f book = (Ret s, b)
  end.
Proof.
  unfold commands. cbn [lookup]. intros L.
  repeat match type of L with
         | (if ?c then _ else _) = _ => destruct c
         end;
    try discriminate; injection L as <-;
    unfold add_contact, change_contact, show_phone, show_all,
      add_birthday_handler, show_birthday, upcoming_birthdays;
    match goal with
    | |- exists s b, input_error ?f ?a = _ =>
        let H := fresh in
        assert (H : recovers f)
          by (apply tame_recovers;
              first [ exact add_contact_func_tame
                    | exact change_contact_func_tame
                    | exact show_phone_func_tame
                    | exact show_all_func_tame
                    | exact add_birthday_handler_func_tame
                    | exact show_birthday_func_tame
                    | exact (upcoming_birthdays_func_tame today) ]);
        destruct (recovers_returns f a H) as [s Hs]; eauto
    end.
Qed.

Lemma main_turn_no_crash (lower : pystr -> pystr) (today : date.t)
  (line : pystr) (book : AddressBook.t) (e : exn) (book' : AddressBook.t) :
  main_turn lower today line book <> Uncaught e book'.
Proof.
  unfold main_turn.
  destruct (split (strip line)) as [|word args]; [discriminate|].
  destruct (mem (lower word) [lit "close"; lit "exit"]); [discriminate|].
  destruct (str_eqb (lower word) (lit "hello")); [discriminate|].
  destruct (lookup (lower word) (commands today)) as [h|] eqn:L;
    [|discriminate].
  pose proof (handler_returns today _ h args book L) as K.
  assert (T : forall c, lookup c (commands today) = Some h ->
                        mem c [lit "all"; lit "birthdays"]
                        = match h with book_only _ => true | _ => false end).
  { intros c. unfold commands. cbn [lookup mem].
    destruct (str_eqb c (lit "add")) eqn:E1.
    { apply str_eqb_eq in E1; subst c. intros [= <-]. reflexivity. }
    destruct (str_eqb c (lit "change")) eqn:E2.
    { apply str_eqb_eq in E2; subst c. intros [= <-]. reflexivity. }
    destruct (str_eqb c (lit "phone")) eqn:E3.
    { apply str_eqb_eq in E3; subst c. intros [= <-]. reflexivity. }
    destruct (str_eqb c (lit "all")) eqn:E4.
    { intros [= <-]. reflexivity. }
    destruct (str_eqb c (lit "add-birthday")) eqn:E5.
    { apply str_eqb_eq in E5; subst c. intros [= <-]. reflexivity. }
    destruct (str_eqb c (lit "show-birthday")) eqn:E6.
    { apply str_eqb_eq in E6; subst c. intros [= <-]. reflexivity. }
    destruct (str_eqb c (lit "birthdays")) eqn:E7.
    { intros [= <-]. reflexivity. }
    discriminate. }
  rewrite (T _ L).
  destruct h as [f|f]; destruct K as (s & b & K); rewrite K; discriminate.
Qed.

(** C7, as the specification states it, is false for surplus arguments:
    [phone John extra] has one argument too many, and the handler answers
    with John's phones, not with an error line. *)
Lemma C7_surplus_argument_accepted :
  ~ (forall (args : list pystr) (book : AddressBook.t),
        len args <> 1 ->
        exists msg, fst (show_phone (args, book)) = Ret (lit "Error: " ++ msg)).
Proof.
  intros H.
  destruct (H [lit "John"; lit "extra"] john_book) as [msg E].
  - vm_compute. discriminate.
  - vm_compute in E. discriminate.
Qed.

(** C7, amended: the decorator turns every [KeyError], [ValueError],
    [IndexError] and [AttributeError] (the classes that carry
    InvalidFormat, NotFound and ArgumentMismatch) into the string
    ["Error: <message>"]; the bodies of the seven handlers raise nothing
    else, so each decorated handler returns the body's string or that
    one-line error string, and no turn of the loop ends in an uncaught
    exception; [add], [change] and [add-birthday] answer any wrong number
    of arguments with such an error string and leave the book alone;
    [phone] and [show-birthday] do so when given no argument, and ignore
    arguments after the first. *)
Theorem C7_errors_recovered :
  (forall (A : Type) (func : A -> outcome) a cls msg book,
      func a = (Exc (Raise cls msg), book) -> caught cls = true ->
      input_error func a = (Ret (lit "Error: " ++ msg), book))
  /\ (recovers add_contact_func /\ recovers change_contact_func
      /\ recovers show_phone_func /\ recovers show_all_func
      /\ recovers add_birthday_handler_func /\ recovers show_birthday_func
      /\ forall today, recovers (upcoming_birthdays_func today))
  /\ (forall lower today line book e book',
         main_turn lower today line book <> Uncaught e book')
  /\ (forall args book,
         len args <> 2 ->
         add_contact (args, book)
         = (Ret (lit "Error: " ++ exn_msg (unpack_error 2 args)), book)
         /\ add_birthday_handler (args, book)
            = (Ret (lit "Error: " ++ exn_msg (unpack_error 2 args)), book))
  /\ (forall args book,
         len args <> 3 ->
         change_contact (args, book)
         = (Ret (lit "Error: " ++ exn_msg (unpack_error 3 args)), book))
  /\ (forall book,
         show_phone ([], book)
         = (Ret (lit "Error: list index out of range"), book)
         /\ show_birthday ([], book)
            = (Ret (lit "Error: list index out of range"), book))
  /\ (forall name rest book,
         show_phone (name :: rest, book) = show_phone ([name], book)
         /\ show_birthday (name :: rest, book) = show_birthday ([name], book)).
Proof.
  split; [|split; [|split; [|split; [|split; [|split]]]]].
  - intros A func a cls msg book. apply input_error_caught.
  - split; [|split; [|split; [|split; [|split; [|split; [|intros today]]]]]];
      apply tame_recovers.
    + exact add_contact_func_tame.
    + exact change_contact_func_tame.
    + exact show_phone_func_tame.
    + exact show_all_func_tame.
    + exact add_birthday_handler_func_tame.
    + exact show_birthday_func_tame.
    + exact (upcoming_birthdays_func_tame today).
  - intros. apply main_turn_no_crash.
  - intros args book L.
    assert (E1 : add_contact_func (args, book)
                 = (Exc (unpack_error 2 args), book)).
    { destruct args as [|? [|? [|? ?]]]; try reflexivity.
      exfalso; apply L; reflexivity. }
    assert (E2 : add_birthday_handler_func (args, book)
                 = (Exc (unpack_error 2 args), book)).
    { destruct args as [|? [|? [|? ?]]]; try reflexivity.
      exfalso; apply L; reflexivity. }
    destruct (unpack_error_tame 2 args) as [C _].
    destruct (unpack_error 2 args) as [cls msg] eqn:U. cbn [exn_cls] in C.
    cbn [exn_msg]. split.
    + exact (input_error_caught add_contact_func _ cls msg book E1 C).
    + exact (input_error_caught add_birthday_handler_func _ cls msg book E2 C).
  - intros args book L.
    assert (E1 : change_contact_func (args, book)
                 = (Exc (unpack_error 3 args), book)).
    { destruct args as [|? [|? [|? [|? ?]]]]; try reflexivity.
      exfalso; apply L; reflexivity. }
    destruct (unpack_error_tame 3 args) as [C _].
    destruct (unpack_error 3 args) as [cls msg] eqn:U. cbn [exn_cls] in C.
    cbn [exn_msg].
    exact (input_error_caught change_contact_func _ cls msg book E1 C).
  - intros book. split; reflexivity.
  - intros name rest book. split.
    + unfold show_phone, input_error, show_phone_func. reflexivity.
    + unfold show_birthday, input_error, show_birthday_func. reflexivity.
Qed.

Lemma C7_errors_recovered_witness :
  add_contact ([lit "John"], AddressBook.empty)
  = (Ret (lit "Error: not enough values to unpack (expected 2, got 1)"),
     AddressBook.empty).
Proof.
  refine (proj1 (proj1 (proj2 (proj2 (proj2 C7_errors_recovered)))
                   [lit "John"] AddressBook.empty _)).
  vm_compute. discriminate.
Defined.

(** ** Birthday *)

Lemma one_inv (p : char -> bool) (s x r : pystr) :
  In (x, r) (strptime.one p s) -> exists c, x = [c] /\ s = c :: r /\ p c = true.
Proof.
  unfold strptime.one. destruct s as [|c s]; [intros []|].
  destruct (p c) eqn:E; [|intros []].
  intros [[= <- <-]|[]]. eauto.
Qed.

Lemma one_in (p : char -> bool) (c : char) (r : pystr) :
  p c = true -> In ([c], r) (strptime.one p (c :: r)).
Proof. intros E. unfold strptime.one. rewrite E. left; reflexivity. Qed.

Lemma seq_inv (a b : strptime.matcher) (s x r : pystr) :
  In (x, r) (strptime.seq a b s) ->
  exists x1 x2 r1, In (x1, r1) (a s) /\ In (x2, r) (b r1) /\ x = x1 ++ x2.
Proof.
  unfold strptime.seq. rewrite in_flat_map. intros [[x1 r1] [H1 H2]].
  apply in_map_iff in H2. destruct H2 as [[x2 r2] [[= <- <-] H2]].
  cbn [fst snd] in *. eauto 6.
Qed.

Lemma seq_in (a b : strptime.matcher) (s x1 r1 x2 r : pystr) :
  In (x1, r1) (a s) -> In (x2, r) (b r1) ->
  In (x1 ++ x2, r) (strptime.seq a b s).
Proof.
  intros H1 H2. unfold strptime.seq. apply in_flat_map.
  exists (x1, r1). split; [exact H1|].
  apply in_map_iff. exists (x2, r). split; [reflexivity | exact H2].
Qed.

Lemma alt_inv (a b : strptime.matcher) (s x r : pystr) :
  In (x, r) (strptime.alt a b s) -> In (x, r) (a s) \/ In (x, r) (b s).
Proof. apply in_app_or. Qed.

Ltac invert_match :=
  repeat match goal with
    | H : In _ (strptime.alt _ _ _) |- _ => apply alt_inv in H; destruct H as [H|H]
    | H : In _ (strptime.seq _ _ _) |- _ =>
        apply seq_inv in H;
        let x1 := fresh "x" in let x2 := fresh "x" in let r1 := fresh "r" in
        let H1 := fresh "H" in let H2 := fresh "H" in
        destruct H as (x1 & x2 & r1 & H1 & H2 & ->)
    | H : In _ (strptime.one _ _) |- _ =>
        apply one_inv in H;
        let c := fresh "c" in let E := fresh "E" in
        destruct H as (c & -> & -> & E)
    end.

Lemma re_d_sound (s x r : pystr) :
  In (x, r) (strptime.re_d s) -> s = x ++ r /\ day_text x = true.
Proof.
  unfold strptime.re_d. intros H. invert_match; cbn [app day_text];
    (split; [reflexivity|]);
    unfold strptime.exactly in *;
    repeat match goal with E : _ = true |- _ => rewrite E; clear E end;
    rewrite ?orb_true_r; reflexivity.
Qed.

Lemma re_m_sound (s x r : pystr) :
  In (x, r) (strptime.re_m s) -> s = x ++ r /\ month_text x = true.
Proof.
  unfold strptime.re_m. intros H. invert_match; cbn [app month_text];
    (split; [reflexivity|]);
    unfold strptime.exactly in *;
    repeat match goal with E : _ = true |- _ => rewrite E; clear E end;
    rewrite ?orb_true_r; reflexivity.
Qed.

Lemma re_Y_sound (s x r : pystr) :
  In (x, r) (strptime.re_Y s) -> s = x ++ r /\ year_text x = true.
Proof.
  unfold strptime.re_Y. intros H. invert_match; cbn [app year_text].
  split; [reflexivity|].
  repeat match goal with E : _ = true |- _ => rewrite E; clear E end.
  reflexivity.
Qed.

Lemma re_dot_sound (s x r : pystr) :
  In (x, r) (strptime.re_dot s) -> s = 46 :: r /\ x = [46].
Proof.
  unfold strptime.re_dot. intros H. invert_match.
  unfold strptime.exactly in *. apply Z.eqb_eq in E. subst. auto.
Qed.

Lemma re_d_complete (x r : pystr) :
  day_text x = true -> In (x, r) (strptime.re_d (x ++ r)).
Proof.
  unfold strptime.re_d, strptime.alt.
  destruct x as [|a [|b [|? ?]]]; cbn [day_text app]; try discriminate.
  - intros E. apply in_or_app; right. apply in_or_app; right.
    apply in_or_app; right. apply in_or_app; left.
    apply (one_in _ a r E).
  - rewrite !orb_true_iff, !andb_true_iff.
    intros [[[[E1 E2]|[E1 E2]]|[E1 E2]]|[E1 E2]].
    + apply in_or_app; left.
      apply (seq_in _ _ _ [a] (b :: r) [b] r); apply one_in; assumption.
    + apply in_or_app; right. apply in_or_app; left.
      apply (seq_in _ _ _ [a] (b :: r) [b] r); apply one_in; assumption.
    + do 2 (apply in_or_app; right). apply in_or_app; left.
      apply (seq_in _ _ _ [a] (b :: r) [b] r); apply one_in; assumption.
    + do 4 (apply in_or_app; right).
      apply (seq_in _ _ _ [a] (b :: r) [b] r); apply one_in; assumption.
Qed.

Lemma re_m_complete (x r : pystr) :
  month_text x = true -> In (x, r) (strptime.re_m (x ++ r)).
Proof.
  unfold strptime.re_m, strptime.alt.
  destruct x as [|a [|b [|? ?]]]; cbn [month_text app]; try discriminate.
  - intros E. do 2 (apply in_or_app; right). apply (one_in _ a r E).
  - rewrite !orb_true_iff, !andb_true_iff. intros [[E1 E2]|[E1 E2]].
    + apply in_or_app; left.
      apply (seq_in _ _ _ [a] (b :: r) [b] r); apply one_in; assumption.
    + apply in_or_app; right. apply in_or_app; left.
      apply (seq_in _ _ _ [a] (b :: r) [b] r); apply one_in; assumption.
Qed.

Lemma re_Y_complete (x r : pystr) :
  year_text x = true -> In (x, r) (strptime.re_Y (x ++ r)).
Proof.
  unfold strptime.re_Y.
  destruct x as [|a [|b [|c [|d [|? ?]]]]]; cbn [year_text app];
    try discriminate.
  rewrite !andb_true_iff. intros [[[Ea Eb] Ec] Ed].
  apply (seq_in _ _ _ [a] (b :: c :: d :: r) [b; c; d] r);
    [apply one_in; assumption|].
  apply (seq_in _ _ _ [b] (c :: d :: r) [c; d] r);
    [apply one_in; assumption|].
  apply (seq_in _ _ _ [c] (d :: r) [d] r); apply one_in; assumption.
Qed.

Lemma format_regex_sound (s d m y rest : pystr) :
  In ((d, m, y), rest) (strptime.format_regex s) ->
  s = d ++ [46] ++ m ++ [46] ++ y ++ rest
  /\ day_text d = true /\ month_text m = true /\ year_text y = true.
Proof.
  unfold strptime.format_regex. rewrite in_flat_map.
  intros [[d0 r0] [Hd H]]. rewrite in_flat_map in H.
  destruct H as [[p1 r1] [Hp1 H]]. rewrite in_flat_map in H.
  destruct H as [[m0 r2] [Hm H]]. rewrite in_flat_map in H.
  destruct H as [[p2 r3] [Hp2 H]]. apply in_map_iff in H.
  destruct H as [[y0 r4] [E Hy]]. cbn [fst snd] in *.
  injection E as <- <- <- <-.
  apply re_d_sound in Hd. apply re_dot_sound in Hp1.
  apply re_m_sound in Hm. apply re_dot_sound in Hp2.
  apply re_Y_sound in Hy.
  destruct Hd as [-> Dd], Hp1 as [-> _], Hm as [-> Dm], Hp2 as [-> _],
    Hy as [-> Dy].
  repeat split; auto.
Qed.

Lemma format_regex_complete (d m y rest : pystr) :
  day_text d = true -> month_text m = true -> year_text y = true ->
  In ((d, m, y), rest)
     (strptime.format_regex (d ++ [46] ++ m ++ [46] ++ y ++ rest)).
Proof.
  intros Dd Dm Dy. unfold strptime.format_regex.
  apply in_flat_map. exists (d, [46] ++ m ++ [46] ++ y ++ rest).
  split; [apply re_d_complete; auto|]. cbn [fst snd].
  apply in_flat_map. exists ([46], m ++ [46] ++ y ++ rest).
  split; [apply one_in; reflexivity|]. cbn [fst snd].
  apply in_flat_map. exists (m, [46] ++ y ++ rest).
  split; [apply re_m_complete; auto|]. cbn [fst snd].
  apply in_flat_map. exists ([46], y ++ rest).
  split; [apply one_in; reflexivity|]. cbn [fst snd].
  apply in_map_iff. exists (y, rest).
  split; [reflexivity | apply re_Y_complete; auto].
Qed.

(** Neither a day nor a month text holds a dot, so the dots of the input
    fix where the groups end. *)
Lemma decimal_not_dot (c : char) : isdecimal_char c = true -> c <> 46.
Proof. intros H ->. vm_compute in H. discriminate. Qed.

Lemma day_text_no_dot (d : pystr) : day_text d = true -> ~ In 46 d.
Proof.
  destruct d as [|a [|b [|? ?]]]; cbn [day_text]; try discriminate.
  - unfold strptime.between. rewrite andb_true_iff, !Z.leb_le.
    intros H [E|[]]. lia.
  - unfold strptime.between.
    rewrite !orb_true_iff, !andb_true_iff, !Z.leb_le, !Z.eqb_eq.
    intros H [E|[E|[]]].
    + lia.
    + subst b. destruct H as [[[H|[_ H]]|H]|H]; try lia.
      revert H. apply not_eq_sym. intros H. vm_compute in H. discriminate.
Qed.

Lemma month_text_no_dot (m : pystr) : month_text m = true -> ~ In 46 m.
Proof.
  destruct m as [|a [|b [|? ?]]]; cbn [month_text]; try discriminate.
  - unfold strptime.between. rewrite andb_true_iff, !Z.leb_le.
    intros H [E|[]]. lia.
  - unfold strptime.between.
    rewrite !orb_true_iff, !andb_true_iff, !Z.leb_le, !Z.eqb_eq.
    intros H [E|[E|[]]]; lia.
Qed.

Lemma split_at_dot (a a' t t' : pystr) :
  ~ In 46 a -> ~ In 46 a' -> a ++ 46 :: t = a' ++ 46 :: t' ->
  a = a' /\ t = t'.
Proof.
  revert a'. induction a as [|x a IH]; intros [|x' a'] Ha Ha'; cbn [app].
  - intros [= ->]. auto.
  - intros [= <- _]. exfalso. apply Ha'. left; reflexivity.
  - intros [= -> _]. exfalso. apply Ha. left; reflexivity.
  - intros [= <- E]. destruct (IH a') as [-> ->]; auto.
    + intros H; apply Ha; right; exact H.
    + intros H; apply Ha'; right; exact H.
Qed.

Lemma year_text_length (y : pystr) : year_text y = true -> List.length y = 4%nat.
Proof.
  destruct y as [|a [|b [|c [|d [|? ?]]]]]; cbn [year_text]; try discriminate.
  reflexivity.
Qed.

Lemma format_regex_unique (s d m y rest d' m' y' rest' : pystr) :
  In ((d, m, y), rest) (strptime.format_regex s) ->
  In ((d', m', y'), rest') (strptime.format_regex s) ->
  d = d' /\ m = m' /\ y = y' /\ rest = rest'.
Proof.
  intros H H'. apply format_regex_sound in H, H'.
  destruct H as (E & Dd & Dm & Dy), H' as (E' & Dd' & Dm' & Dy').
  rewrite E in E'. cbn [app] in E'.
  apply split_at_dot in E'; auto using day_text_no_dot.
  destruct E' as [<- E'].
  apply split_at_dot in E'; auto using month_text_no_dot.
  destruct E' as [<- E'].
  apply year_text_length in Dy, Dy'.
  destruct y as [|a [|b [|c [|e [|? ?]]]]]; try discriminate.
  destruct y' as [|a' [|b' [|c' [|e' [|? ?]]]]]; try discriminate.
  cbn [app] in E'. injection E' as <- <- <- <- <-. auto.
Qed.

Lemma format_regex_head (d m y : pystr) :
  day_text d = true -> month_text m = true -> year_text y = true ->
  exists tl,
    strptime.format_regex (d ++ [46] ++ m ++ [46] ++ y) = ((d, m, y), []) :: tl.
Proof.
  intros Dd Dm Dy.
  pose proof (format_regex_complete d m y [] Dd Dm Dy) as H.
  rewrite app_nil_r in H.
  destruct (strptime.format_regex (d ++ [46] ++ m ++ [46] ++ y))
    as [|[[[d' m'] y'] rest'] tl] eqn:E; [destruct H|].
  exists tl.
  assert (H' : In ((d', m', y'), rest')
                  (strptime.format_regex (d ++ [46] ++ m ++ [46] ++ y)))
    by (rewrite E; left; reflexivity).
  rewrite <- E in H.
  destruct (format_regex_unique _ _ _ _ _ _ _ _ _ H H') as (-> & -> & -> & <-).
  reflexivity.
Qed.

(** [strptime] returns a date exactly on the strings made of a day, a
    month and a year text between dots whose numbers [date] accepts. *)
Lemma parse_ret_iff (s : pystr) (x : date.t) :
  strptime.parse s = Ret x
  <-> exists d m y : pystr,
      s = d ++ [46] ++ m ++ [46] ++ y
      /\ day_text d = true /\ month_text m = true /\ year_text y = true
      /\ date.new (int_of_str y) (int_of_str m) (int_of_str d) = Ret x.
Proof.
  split.
  - unfold strptime.parse.
    destruct (strptime.format_regex s) as [|[[[d m] y] rest] tl] eqn:E;
      [discriminate|].
    destruct rest; [|discriminate].
    intros N. exists d, m, y.
    assert (H : In ((d, m, y), []) (strptime.format_regex s))
      by (rewrite E; left; reflexivity).
    apply format_regex_sound in H. rewrite app_nil_r in H.
    destruct H as (-> & Dd & Dm & Dy). auto.
  - intros (d & m & y & -> & Dd & Dm & Dy & N).
    destruct (format_regex_head d m y Dd Dm Dy) as [tl E].
    unfold strptime.parse. rewrite E. exact N.
Qed.

Lemma decimal_value_bounds (c : char) : 0 <= decimal_value c <= 9.
Proof.
  unfold decimal_value.
  destruct (find _ decimal_ranges) as [r|]; [|lia].
  pose proof (Z.mod_pos_bound (c - fst r) 10 ltac:(lia)). lia.
Qed.

Lemma ranges_disjoint_spec (t1 t2 : list (Z * Z)) (c : char) :
  ranges_disjoint t1 t2 = true ->
  in_ranges c t1 = true -> in_ranges c t2 = false.
Proof.
  unfold ranges_disjoint, in_ranges. intros D H1.
  apply not_true_iff_false. intros H2.
  apply existsb_exists in H1, H2.
  destruct H1 as (r1 & I1 & B1), H2 as (r2 & I2 & B2).
  rewrite forallb_forall in D. specialize (D r1 I1).
  rewrite forallb_forall in D. specialize (D r2 I2).
  rewrite andb_true_iff, !Z.leb_le in B1, B2.
  rewrite orb_true_iff, !Z.ltb_lt in D. lia.
Qed.

Lemma decimal_not_space (c : char) :
  isdecimal_char c = true -> isspace_char c = false.
Proof.
  apply ranges_disjoint_spec. vm_compute. reflexivity.
Qed.

Lemma between_ascii_digit (lo hi c : char) :
  48 <= lo -> hi <= 57 -> strptime.between lo hi c = true ->
  lo <= c <= hi /\ is_ascii_digit c = true.
Proof.
  unfold strptime.between, is_ascii_digit.
  rewrite !andb_true_iff, !Z.leb_le. lia.
Qed.

Lemma ascii_digit_int (c : char) :
  is_ascii_digit c = true ->
  isspace_char c = false /\ decimal_value c = c - 48.
Proof.
  intros H. split.
  - apply decimal_not_space, ascii_digit_is_decimal, H.
  - apply ascii_digit_value, H.
Qed.

Lemma int_of_str_cons_digit (acc : Z) (c : char) (s : pystr) :
  isspace_char c = false ->
  fold_left (fun acc c => if isspace_char c then acc
                          else 10 * acc + decimal_value c) (c :: s) acc
  = fold_left (fun acc c => if isspace_char c then acc
                            else 10 * acc + decimal_value c) s
      (10 * acc + decimal_value c).
Proof. intros H. cbn [fold_left]. rewrite H. reflexivity. Qed.

Ltac digit_facts :=
  repeat match goal with
    | H : strptime.between ?lo ?hi ?c = true |- _ =>
        apply (between_ascii_digit lo hi c ltac:(lia) ltac:(lia)) in H;
        let B := fresh "B" in let A := fresh "A" in
        destruct H as [B A];
        let S := fresh "S" in let V := fresh "V" in
        destruct (ascii_digit_int c A) as [S V]
    | H : isdecimal_char ?c = true |- _ =>
        let S := fresh "S" in
        pose proof (decimal_not_space c H) as S;
        pose proof (decimal_value_bounds c);
        clear H
    end.

Lemma day_text_int (d : pystr) :
  day_text d = true -> 1 <= int_of_str d <= 31.
Proof.
  destruct d as [|a [|b [|? ?]]]; cbn [day_text]; try discriminate;
    unfold int_of_str.
  - intros H. digit_facts. rewrite int_of_str_cons_digit by assumption.
    cbn [fold_left]. lia.
  - rewrite !orb_true_iff, !andb_true_iff, !Z.eqb_eq.
    intros [[[[E1 E2]|[E1 E2]]|[E1 E2]]|[E1 E2]]; digit_facts.
    + subst a. cbn [fold_left]. rewrite S.
      replace (isspace_char 51) with false by reflexivity.
      replace (decimal_value 51) with 3 by reflexivity. lia.
    + cbn [fold_left]. rewrite S, S0. lia.
    + subst a. cbn [fold_left]. rewrite S.
      replace (isspace_char 48) with false by reflexivity.
      replace (decimal_value 48) with 0 by reflexivity. lia.
    + subst a. cbn [fold_left]. rewrite S.
      replace (isspace_char 32) with true by reflexivity. lia.
Qed.

Lemma month_text_int (m : pystr) :
  month_text m = true -> 1 <= int_of_str m <= 12.
Proof.
  destruct m as [|a [|b [|? ?]]]; cbn [month_text]; try discriminate;
    unfold int_of_str.
  - intros H. digit_facts. rewrite int_of_str_cons_digit by assumption.
    cbn [fold_left]. lia.
  - rewrite !orb_true_iff, !andb_true_iff, !Z.eqb_eq.
    intros [[E1 E2]|[E1 E2]]; digit_facts; subst a; cbn [fold_left];
      rewrite S.
    + replace (isspace_char 49) with false by reflexivity.
      replace (decimal_value 49) with 1 by reflexivity. lia.
    + replace (isspace_char 48) with false by reflexivity.
      replace (decimal_value 48) with 0 by reflexivity. lia.
Qed.

Lemma year_text_int (y : pystr) :
  year_text y = true -> 0 <= int_of_str y <= 9999.
Proof.
  destruct y as [|a [|b [|c [|d [|? ?]]]]]; cbn [year_text]; try discriminate.
  rewrite !andb_true_iff. intros [[[Ea Eb] Ec] Ed]. digit_facts.
  unfold int_of_str. cbn [fold_left]. rewrite S, S0, S1, S2. lia.
Qed.

Lemma birthday_text_parse (s : pystr) :
  birthday_text s <-> exists x, strptime.parse s = Ret x.
Proof.
  split.
  - intros (d & m & y & E & Dd & Dm & Dy & Y1 & D1).
    pose proof (day_text_int d Dd). pose proof (month_text_int m Dm).
    pose proof (year_text_int y Dy).
    exists {| date.year := int_of_str y; date.month := int_of_str m;
              date.day := int_of_str d |}.
    apply parse_ret_iff. exists d, m, y. repeat split; auto.
    apply (new_valid {| date.year := int_of_str y; date.month := int_of_str m;
                        date.day := int_of_str d |}).
    unfold date.valid, date.MINYEAR, date.MAXYEAR. cbn [date.year date.month date.day]. lia.
  - intros [x P]. apply parse_ret_iff in P.
    destruct P as (d & m & y & E & Dd & Dm & Dy & N).
    apply new_ret in N. destruct N as [-> V].
    unfold date.valid, date.MINYEAR in V. cbn [date.year date.month date.day] in V.
    exists d, m, y. repeat split; auto; lia.
Qed.

Lemma ascii_digit_range (c : char) :
  is_ascii_digit c = true <-> 48 <= c <= 57.
Proof. unfold is_ascii_digit. rewrite andb_true_iff, !Z.leb_le. tauto. Qed.

Lemma between_true (lo hi c : char) :
  lo <= c <= hi -> strptime.between lo hi c = true.
Proof.
  intros H. unfold strptime.between. rewrite andb_true_iff, !Z.leb_le. exact H.
Qed.

Lemma two_digit_day (d1 d2 : char) :
  is_ascii_digit d1 = true -> is_ascii_digit d2 = true ->
  1 <= 10 * (d1 - 48) + (d2 - 48) <= 31 -> day_text [d1; d2] = true.
Proof.
  intros A1 A2 B. pose proof (ascii_digit_is_decimal d2 A2) as D2.
  apply ascii_digit_range in A1, A2. cbn [day_text].
  rewrite !orb_true_iff, !andb_true_iff, !Z.eqb_eq.
  assert (C : d1 = 48 \/ 49 <= d1 <= 50 \/ d1 = 51) by lia.
  destruct C as [C|[C|C]].
  - left; right. split; [exact C | apply between_true; lia].
  - left; left; right. split; [apply between_true; lia | exact D2].
  - left; left; left. split; [exact C | apply between_true; lia].
Qed.

Lemma two_digit_month (m1 m2 : char) :
  is_ascii_digit m1 = true -> is_ascii_digit m2 = true ->
  1 <= 10 * (m1 - 48) + (m2 - 48) <= 12 -> month_text [m1; m2] = true.
Proof.
  intros A1 A2 B. apply ascii_digit_range in A1, A2. cbn [month_text].
  rewrite !orb_true_iff, !andb_true_iff, !Z.eqb_eq.
  assert (C : m1 = 48 \/ m1 = 49) by lia.
  destruct C as [C|C].
  - right. split; [exact C | apply between_true; lia].
  - left. split; [exact C | apply between_true; lia].
Qed.

Lemma int_of_two_digits (a b : char) :
  is_ascii_digit a = true -> is_ascii_digit b = true ->
  int_of_str [a; b] = 10 * (a - 48) + (b - 48).
Proof.
  intros A B. destruct (ascii_digit_int a A) as [Sa Va].
  destruct (ascii_digit_int b B) as [Sb Vb].
  unfold int_of_str. cbn [fold_left]. rewrite Sa, Sb, Va, Vb. lia.
Qed.

Lemma int_of_four_digits (a b c d : char) :
  is_ascii_digit a = true -> is_ascii_digit b = true ->
  is_ascii_digit c = true -> is_ascii_digit d = true ->
  int_of_str [a; b; c; d]
  = 1000 * (a - 48) + 100 * (b - 48) + 10 * (c - 48) + (d - 48).
Proof.
  intros A B C D. destruct (ascii_digit_int a A) as [Sa Va].
  destruct (ascii_digit_int b B) as [Sb Vb].
  destruct (ascii_digit_int c C) as [Sc Vc].
  destruct (ascii_digit_int d D) as [Sd Vd].
  unfold int_of_str. cbn [fold_left].
  rewrite Sa, Sb, Sc, Sd, Va, Vb, Vc, Vd. lia.
Qed.

(** Every string of the form the specification describes is accepted. *)
Lemma spec_format_accepted (s : pystr) :
  spec_dd_mm_yyyy s = true -> birthday_text s.
Proof.
  destruct s as [|d1 [|d2 [|p [|m1 [|m2 [|q [|y1 [|y2 [|y3 [|y4 [|? ?]]]]]]]]]]];
    cbn [spec_dd_mm_yyyy]; try discriminate.
  cbn [forallb]. rewrite !andb_true_iff, !Z.leb_le, !Z.eqb_eq.
  intros [[[[[[[H ->] ->] Y] M1] M2] D1] D2].
  destruct H as (Ad1 & Ad2 & Am1 & Am2 & Ay1 & Ay2 & Ay3 & Ay4 & _).
  pose proof (int_of_two_digits d1 d2 Ad1 Ad2) as Id.
  pose proof (int_of_two_digits m1 m2 Am1 Am2) as Im.
  pose proof (int_of_four_digits y1 y2 y3 y4 Ay1 Ay2 Ay3 Ay4) as Iy.
  pose proof (days_in_month_bounds
                (1000 * (y1 - 48) + 100 * (y2 - 48) + 10 * (y3 - 48)
                 + (y4 - 48))
                (10 * (m1 - 48) + (m2 - 48)) ltac:(lia)) as Bd.
  exists [d1; d2], [m1; m2], [y1; y2; y3; y4].
  rewrite Id, Im, Iy. repeat split; auto.
  - apply two_digit_day; auto. lia.
  - apply two_digit_month; auto.
  - cbn [year_text].
    rewrite !(ascii_digit_is_decimal _ Ay1), !(ascii_digit_is_decimal _ Ay2),
      !(ascii_digit_is_decimal _ Ay3), !(ascii_digit_is_decimal _ Ay4).
    reflexivity.
Qed.

(** C3, as the specification states it, is false: ["1.1.2020"] has neither
    a two-digit day nor a two-digit month, and [Birthday] accepts it,
    because [strptime] reads [%d] and [%m] without the padding. *)
Lemma C3_unpadded_date_accepted :
  ~ (forall s : pystr,
        is_exc (Birthday.init s) = false -> spec_dd_mm_yyyy s = true).
Proof.
  intros H. specialize (H (lit "1.1.2020") eq_refl). discriminate.
Qed.

(** C3, amended: [Birthday] construction succeeds exactly on the strings
    day.month.year whose day is one or two digits (or a blank and a digit),
    whose month is one or two digits and whose year is four decimal
    digits, naming a real calendar date of the years 1 to 9999, and fails
    with its InvalidFormat error on every other string; the strings of the
    zero-padded form DD.MM.YYYY with a real date are among those accepted;
    an accepted string is stored as it was given. *)
Theorem C3_Birthday_init_spec (s : pystr) :
  (Birthday.init s = Ret {| Birthday.value := s |} <-> birthday_text s)
  /\ (Birthday.init s = Exc Birthday.InvalidFormat <-> ~ birthday_text s)
  /\ (forall b, Birthday.init s = Ret b -> Birthday.value b = s)
  /\ (spec_dd_mm_yyyy s = true ->
      Birthday.init s = Ret {| Birthday.value := s |}).
Proof.
  assert (K : Birthday.init s = Ret {| Birthday.value := s |}
              <-> birthday_text s).
  { rewrite birthday_text_parse. split.
    - intros E. apply Birthday_init_ret in E. apply E.
    - intros [x P]. unfold Birthday.init. rewrite P. reflexivity. }
  pose proof (Birthday_init_cases s) as D.
  split; [exact K | split; [|split]].
  - split.
    + intros E T. apply K in T. congruence.
    + intros N. destruct D as [D|D]; auto. apply K in D. contradiction.
  - intros b E. apply Birthday_init_ret in E. destruct E as [-> _].
    reflexivity.
  - intros S. apply K, spec_format_accepted, S.
Qed.

Lemma C3_Birthday_init_witness :
  Birthday.init (lit "25.12.1990")
  = Ret {| Birthday.value := lit "25.12.1990" |}.
Proof.
  apply (proj2 (proj2 (proj2 (C3_Birthday_init_spec (lit "25.12.1990"))))).
  reflexivity.
Defined.

(** * Further properties of the handlers and of the loop *)

(** ** The dictionary *)

Lemma str_eqb_sym (a b : pystr) : str_eqb a b = str_eqb b a.
Proof.
  destruct (str_eqb a b) eqn:E; symmetry.
  - apply str_eqb_eq in E. subst. apply str_eqb_refl.
  - apply str_eqb_neq in E. apply str_eqb_neq. congruence.
Qed.

Lemma get_setitem (book : AddressBook.t) (key key' : pystr) (r : Record.t) :
  AddressBook.get (AddressBook.setitem book key r) key'
  = if str_eqb key key' then Some r else AddressBook.get book key'.
Proof.
  induction book as [|[k r0] book IH]; cbn [AddressBook.setitem AddressBook.get].
  - reflexivity.
  - destruct (str_eqb k key) eqn:E; cbn [AddressBook.get].
    + apply str_eqb_eq in E. subst k. destruct (str_eqb key key'); reflexivity.
    + destruct (str_eqb k key') eqn:E'; [|exact IH].
      apply str_eqb_eq in E'. rewrite <- E', (str_eqb_sym key k), E.
      reflexivity.
Qed.

Lemma get_setitem_same (book : AddressBook.t) (key : pystr) (r : Record.t) :
  AddressBook.get (AddressBook.setitem book key r) key = Some r.
Proof. rewrite get_setitem, str_eqb_refl. reflexivity. Qed.

Lemma get_setitem_other (book : AddressBook.t) (key key' : pystr)
  (r : Record.t) :
  key' <> key ->
  AddressBook.get (AddressBook.setitem book key r) key'
  = AddressBook.get book key'.
Proof.
  intros N. rewrite get_setitem.
  destruct (str_eqb key key') eqn:E; [|reflexivity].
  apply str_eqb_eq in E. congruence.
Qed.

Lemma setitem_absent (book : AddressBook.t) (key : pystr) (r : Record.t) :
  AddressBook.get book key = None ->
  AddressBook.setitem book key r = book ++ [(key, r)].
Proof.
  induction book as [|[k r0] book IH]; cbn [AddressBook.setitem AddressBook.get app].
  - reflexivity.
  - destruct (str_eqb k key); [discriminate|].
    intros H. rewrite (IH H). reflexivity.
Qed.

Lemma setitem_present_keys (book : AddressBook.t) (key : pystr)
  (r r0 : Record.t) :
  AddressBook.get book key = Some r0 ->
  AddressBook.keys (AddressBook.setitem book key r) = AddressBook.keys book.
Proof.
  unfold AddressBook.keys.
  induction book as [|[k r1] book IH]; cbn [AddressBook.setitem AddressBook.get map];
    [discriminate|].
  destruct (str_eqb k key); [reflexivity|].
  intros H. cbn [map fst]. rewrite (IH H). reflexivity.
Qed.

Lemma setitem_keys (book : AddressBook.t) (key : pystr) (r : Record.t) :
  AddressBook.keys (AddressBook.setitem book key r)
  = match AddressBook.get book key with
    | Some _ => AddressBook.keys book
    | None => AddressBook.keys book ++ [key]
    end.
Proof.
  destruct (AddressBook.get book key) as [r0|] eqn:G.
  - eapply setitem_present_keys; eauto.
  - rewrite (setitem_absent _ _ _ G). unfold AddressBook.keys.
    rewrite map_app. reflexivity.
Qed.

Lemma get_none_not_key (book : AddressBook.t) (key : pystr) :
  AddressBook.get book key = None <-> ~ In key (AddressBook.keys book).
Proof.
  unfold AddressBook.keys.
  induction book as [|[k r] book IH]; cbn [AddressBook.get map fst In].
  - tauto.
  - destruct (str_eqb k key) eqn:E.
    + apply str_eqb_eq in E. split; [discriminate | intros H; tauto].
    + apply str_eqb_neq in E. rewrite IH. tauto.
Qed.

(** X1: storing a record under a key and looking a key up: the stored
    key gives the record just stored, whatever was there before, and
    every other key gives what it gave before; [add_record] files the
    record under the name it carries; a key is absent exactly when
    [get] finds nothing. *)
Theorem X1_store_then_lookup (book : AddressBook.t) (key key' : pystr)
  (r : Record.t) :
  AddressBook.get (AddressBook.setitem book key r) key'
  = (if str_eqb key key' then Some r else AddressBook.get book key')
  /\ AddressBook.get (AddressBook.add_record book r)
       (Name.value (Record.name r)) = Some r
  /\ (AddressBook.get book key = None <-> ~ In key (AddressBook.keys book)).
Proof.
  split; [apply get_setitem | split].
  - apply get_setitem_same.
  - apply get_none_not_key.
Qed.

(** The keys after a handler ran: the keys before, then at most one new
    key. *)
Lemma setitem_keys_grow (book : AddressBook.t) (key : pystr) (r : Record.t) :
  exists extra,
    AddressBook.keys (AddressBook.setitem book key r)
    = AddressBook.keys book ++ extra
    /\ (List.length extra <= 1)%nat.
Proof.
  rewrite setitem_keys. destruct (AddressBook.get book key).
  - exists []. rewrite app_nil_r. auto.
  - exists [key]. auto.
Qed.

Lemma keys_grow_refl (book : AddressBook.t) :
  exists extra,
    AddressBook.keys book = AddressBook.keys book ++ extra
    /\ (List.length extra <= 1)%nat.
Proof. exists []. rewrite app_nil_r. auto. Qed.

Lemma add_contact_keys (args : list pystr) (book : AddressBook.t) :
  exists extra,
    AddressBook.keys (snd (add_contact_func (args, book)))
    = AddressBook.keys book ++ extra
    /\ (List.length extra <= 1)%nat.
Proof.
  unfold add_contact_func.
  destruct args as [|name [|phone [|? ?]]]; try apply keys_grow_refl.
  destruct (AddressBook.get book name) as [record|].
  - destruct (Record.add_phone record phone);
      [apply setitem_keys_grow | apply keys_grow_refl].
  - destruct (Record.add_phone (Record.init name) phone);
      [apply setitem_keys_grow | apply keys_grow_refl].
Qed.

Lemma change_contact_keys (args : list pystr) (book : AddressBook.t) :
  AddressBook.keys (snd (change_contact_func (args, book)))
  = AddressBook.keys book.
Proof.
  unfold change_contact_func.
  destruct args as [|name [|old [|new [|? ?]]]]; try reflexivity.
  destruct (AddressBook.get book name) as [record|] eqn:G; [|reflexivity].
  destruct (Record.change_phone record old new); [|reflexivity].
  eapply setitem_present_keys; eauto.
Qed.

Lemma add_birthday_handler_keys (args : list pystr) (book : AddressBook.t) :
  exists extra,
    AddressBook.keys (snd (add_birthday_handler_func (args, book)))
    = AddressBook.keys book ++ extra
    /\ (List.length extra <= 1)%nat.
Proof.
  unfold add_birthday_handler_func.
  destruct args as [|name [|b [|? ?]]]; try apply keys_grow_refl.
  destruct (AddressBook.get book name) as [record|] eqn:G.
  - destruct (Record.add_birthday record b);
      [apply setitem_keys_grow | apply keys_grow_refl].
  - assert (S : AddressBook.get
                  (AddressBook.add_record book (Record.init name)) name
                = Some (Record.init name)) by apply get_setitem_same.
    destruct (Record.add_birthday (Record.init name) b) as [r'|e];
      cbn [snd].
    + rewrite (setitem_present_keys _ _ _ _ S). apply setitem_keys_grow.
    + apply setitem_keys_grow.
Qed.

Lemma handler_keys (today : date.t) (command : pystr) (h : handler)
  (args : list pystr) (book : AddressBook.t) :
  lookup command (commands today) = Some h ->
  exists extra,
    AddressBook.keys
      (snd match h with
           | with_args f => f (args, book)
           | book_only f => f book
           end)
    = AddressBook.keys book ++ extra
    /\ (List.length extra <= 1)%nat.
Proof.
  unfold commands. cbn [lookup]. intros L.
  repeat match type of L with
         | (if ?c then _ else _) = _ => destruct c
         end;
    try discriminate; injection L as <-;
    unfold add_contact, change_contact, show_phone, show_all,
      add_birthday_handler, show_birthday, upcoming_birthdays;
    rewrite input_error_book.
  - apply add_contact_keys.
  - rewrite change_contact_keys. apply keys_grow_refl.
  - rewrite show_phone_book. apply keys_grow_refl.
  - apply keys_grow_refl.
  - apply add_birthday_handler_keys.
  - rewrite show_birthday_book. apply keys_grow_refl.
  - rewrite upcoming_birthdays_book. apply keys_grow_refl.
Qed.

(** X2: no turn of the loop deletes or reorders contacts: the names on
    file after the turn are the names before it, in the same order,
    followed by at most one new name. *)
Theorem X2_contacts_are_never_removed (lower : pystr -> pystr)
  (today : date.t) (line : pystr) (book : AddressBook.t)
  (printed : list pystr) (book' : AddressBook.t) :
  main_turn lower today line book = Continue printed book' ->
  exists extra,
    AddressBook.keys book' = AddressBook.keys book ++ extra
    /\ (List.length extra <= 1)%nat.
Proof.
  unfold main_turn.
  destruct (split (strip line)) as [|word args];
    [intros [= _ <-]; apply keys_grow_refl|].
  destruct (mem (lower word) [lit "close"; lit "exit"]); [discriminate|].
  destruct (str_eqb (lower word) (lit "hello"));
    [intros [= _ <-]; apply keys_grow_refl|].
  destruct (lookup (lower word) (commands today)) as [h|] eqn:L;
    [|intros [= _ <-]; apply keys_grow_refl].
  pose proof (handler_keys today _ h args book L) as K.
  destruct (mem (lower word) [lit "all"; lit "birthdays"]);
    destruct h as [f|f]; try discriminate;
    intros E; apply print_outcome_book in E; subst; exact K.
Qed.

Lemma X2_contacts_are_never_removed_witness :
  exists extra,
    AddressBook.keys
      (john_book ++ [(lit "Ann", contact "Ann" "01.02.1990")])
    = AddressBook.keys john_book ++ extra
    /\ (List.length extra <= 1)%nat.
Proof.
  apply (X2_contacts_are_never_removed ascii_lower monday_10_06_2024
           (lit "add-birthday Ann 01.02.1990") john_book
           [lit "Birthday added for Ann."]).
  vm_compute. reflexivity.
Defined.

(** ** What the handlers do to the book *)

Lemma Phone_init_accepts (s : pystr) :
  is_exc (Phone.init s) = false -> Phone.init s = Ret {| Phone.value := s |}.
Proof.
  intros E. destruct (Phone_init_cases s) as [D|D]; [|exact D].
  rewrite D in E. discriminate.
Qed.

Lemma Birthday_init_accepts (s : pystr) :
  is_exc (Birthday.init s) = false ->
  Birthday.init s = Ret {| Birthday.value := s |}.
Proof.
  intros E. destruct (Birthday_init_cases s) as [D|D]; [|exact D].
  rewrite D in E. discriminate.
Qed.

Lemma add_contact_func_accepts (name phone : pystr) (book : AddressBook.t) :
  is_exc (Phone.init phone) = false ->
  add_contact_func ([name; phone], book)
  = (Ret (lit "Contact " ++ name ++ lit " updated."),
     AddressBook.setitem book name
       {| Record.name := Record.name (record_for book name);
          Record.phones := Record.phones (record_for book name)
                           ++ [ {| Phone.value := phone |} ];
          Record.birthday := Record.birthday (record_for book name) |}).
Proof.
  intros E. apply Phone_init_accepts in E.
  unfold add_contact_func, record_for, Record.add_phone.
  destruct (AddressBook.get book name) as [r|]; rewrite E; reflexivity.
Qed.

Lemma input_error_ret {A} (func : A -> outcome) (a : A) (s : pystr)
  (book : AddressBook.t) :
  func a = (Ret s, book) -> input_error func a = (Ret s, book).
Proof. intros E. unfold input_error. rewrite E. reflexivity. Qed.

(** X3: [add] with a phone that [Phone] accepts answers "Contact <name>
    updated." and appends the phone to the phones on file under the name
    (a name not on file starts with no phones and no birthday); the
    birthday and every other contact stay as they were, and [phone <name>]
    then lists the old phones followed by the new one. *)
Theorem X3_add_appends_phone (name phone : pystr) (book : AddressBook.t) :
  is_exc (Phone.init phone) = false ->
  let old := record_for book name in
  let out := add_contact ([name; phone], book) in
  fst out = Ret (lit "Contact " ++ name ++ lit " updated.")
  /\ AddressBook.get (snd out) name
     = Some {| Record.name := Record.name old;
               Record.phones := Record.phones old
                                ++ [ {| Phone.value := phone |} ];
               Record.birthday := Record.birthday old |}
  /\ (forall other, other <> name ->
        AddressBook.get (snd out) other = AddressBook.get book other)
  /\ show_phone ([name], snd out)
     = (Ret (name ++ lit ": "
             ++ join (lit ", ")
                  (map Phone.value (Record.phones old) ++ [phone])),
        snd out).
Proof.
  intros E old out.
  pose proof (add_contact_func_accepts name phone book E) as F.
  assert (O : out = (Ret (lit "Contact " ++ name ++ lit " updated."),
                     AddressBook.setitem book name
                       {| Record.name := Record.name old;
                          Record.phones := Record.phones old
                                           ++ [ {| Phone.value := phone |} ];
                          Record.birthday := Record.birthday old |}))
    by (apply input_error_ret; exact F).
  rewrite O. cbn [fst snd]. split; [reflexivity|]. split; [|split].
  - apply get_setitem_same.
  - intros other N. apply get_setitem_other, N.
  - unfold show_phone, input_error, show_phone_func.
    rewrite get_setitem_same. cbn [Record.phones].
    rewrite map_app. reflexivity.
Qed.

Lemma X3_add_appends_phone_witness :
  show_phone ([lit "John"],
              snd (add_contact ([lit "John"; lit "0987654321"], john_book)))
  = (Ret (lit "John: 1234567890, 0987654321"),
     snd (add_contact ([lit "John"; lit "0987654321"], john_book))).
Proof.
  exact (proj2 (proj2 (proj2
    (X3_add_appends_phone (lit "John") (lit "0987654321") john_book
       eq_refl)))).
Defined.

Lemma add_contact_func_rejects (args : list pystr) (book : AddressBook.t)
  (e : exn) (book' : AddressBook.t) :
  add_contact_func (args, book) = (Exc e, book') -> book' = book.
Proof.
  unfold add_contact_func.
  destruct args as [|name [|phone [|? ?]]]; try (intros [= _ <-]; reflexivity).
  destruct (AddressBook.get book name) as [r|].
  - destruct (Record.add_phone r phone); [discriminate|].
    intros [= _ <-]; reflexivity.
  - destruct (Record.add_phone (Record.init name) phone); [discriminate|].
    intros [= _ <-]; reflexivity.
Qed.

Lemma change_contact_func_rejects (args : list pystr) (book : AddressBook.t)
  (e : exn) (book' : AddressBook.t) :
  change_contact_func (args, book) = (Exc e, book') -> book' = book.
Proof.
  unfold change_contact_func.
  destruct args as [|name [|old [|new [|? ?]]]];
    try (intros [= _ <-]; reflexivity).
  destruct (AddressBook.get book name) as [r|];
    [|intros [= _ <-]; reflexivity].
  destruct (Record.change_phone r old new); [discriminate|].
  intros [= _ <-]; reflexivity.
Qed.

Lemma add_contact_func_ret (args : list pystr) (book : AddressBook.t)
  (s : pystr) (book' : AddressBook.t) :
  add_contact_func (args, book) = (Ret s, book') ->
  exists name phone,
    args = [name; phone] /\ is_exc (Phone.init phone) = false
    /\ s = lit "Contact " ++ name ++ lit " updated.".
Proof.
  unfold add_contact_func, Record.add_phone.
  destruct args as [|name [|phone [|? ?]]]; try discriminate.
  destruct (AddressBook.get book name) as [r|];
    destruct (Phone.init phone) eqn:P; cbn [bind]; try discriminate;
    intros [= <- _]; exists name, phone; repeat split; rewrite P; reflexivity.
Qed.

Lemma change_phone_loop_ret (phones phones' : list Phone.t) (old new : pystr) :
  Record.change_phone_loop phones old new = Ret phones' ->
  In old (map Phone.value phones) /\ is_exc (Phone.init new) = false.
Proof.
  revert phones'. induction phones as [|p phones IH]; intros phones';
    cbn [Record.change_phone_loop map In]; [discriminate|].
  destruct (str_eqb (Phone.value p) old) eqn:E.
  - apply str_eqb_eq in E. destruct (Phone.init new); [|discriminate].
    intros _. auto.
  - destruct (Record.change_phone_loop phones old new) as [rest|];
      [|discriminate].
    intros _. destruct (IH rest eq_refl). auto.
Qed.

Lemma change_contact_func_ret (args : list pystr) (book : AddressBook.t)
  (s : pystr) (book' : AddressBook.t) :
  change_contact_func (args, book) = (Ret s, book') ->
  exists name old new r,
    args = [name; old; new] /\ AddressBook.get book name = Some r
    /\ In old (map Phone.value (Record.phones r))
    /\ is_exc (Phone.init new) = false
    /\ s = lit "Phone number for " ++ name ++ lit " updated.".
Proof.
  unfold change_contact_func, Record.change_phone.
  destruct args as [|name [|old [|new [|? ?]]]]; try discriminate.
  destruct (AddressBook.get book name) as [r|] eqn:G; [|discriminate].
  destruct (Record.change_phone_loop (Record.phones r) old new) as [ps|] eqn:L;
    [|discriminate].
  cbn [bind]. intros [= <- _]. apply change_phone_loop_ret in L.
  exists name, old, new, r. tauto.
Qed.

Lemma recovered_or_returned {A} (func : A -> outcome) (a : A)
  (book : AddressBook.t) :
  recovers func ->
  (forall e book', func a = (Exc e, book') -> book' = book) ->
  (exists s, func a = (Ret s, snd (func a))
             /\ input_error func a = (Ret s, snd (func a)))
  \/ (exists e, fst (func a) = Exc e
                /\ input_error func a = (Ret (lit "Error: " ++ exn_msg e), book)).
Proof.
  intros R U. specialize (R a).
  destruct (func a) as [[s|e] book'] eqn:E; cbn [fst snd] in *.
  - left. exists s. auto.
  - right. exists e. rewrite (U e book' eq_refl) in R. tauto.
Qed.

Lemma change_phone_loop_ret_split (phones phones' : list Phone.t)
  (old new : pystr) :
  Record.change_phone_loop phones old new = Ret phones' ->
  exists before p after,
    phones = before ++ p :: after
    /\ Forall (fun q => Phone.value q <> old) before
    /\ Phone.value p = old
    /\ is_exc (Phone.init new) = false
    /\ phones' = before ++ {| Phone.value := new |} :: after.
Proof.
  revert phones'. induction phones as [|q phones IH]; intros phones';
    cbn [Record.change_phone_loop]; [discriminate|].
  destruct (str_eqb (Phone.value q) old) eqn:E.
  - apply str_eqb_eq in E.
    destruct (Phone.init new) as [n|] eqn:P; [|discriminate].
    cbn [bind]. intros [= <-].
    assert (A : is_exc (Phone.init new) = false) by (rewrite P; reflexivity).
    rewrite (Phone_init_accepts new A) in P. injection P as <-.
    exists [], q, phones. repeat split; auto.
  - apply str_eqb_neq in E.
    destruct (Record.change_phone_loop phones old new) as [rest|];
      [|discriminate].
    cbn [bind]. intros [= <-].
    destruct (IH rest eq_refl) as (before & p & after & -> & F & V & A & ->).
    exists (q :: before), p, after. repeat split; auto.
Qed.

Lemma change_contact_func_ret_full (args : list pystr) (book : AddressBook.t)
  (s : pystr) (book' : AddressBook.t) :
  change_contact_func (args, book) = (Ret s, book') ->
  exists name old new r before p after,
    args = [name; old; new] /\ AddressBook.get book name = Some r
    /\ Record.phones r = before ++ p :: after
    /\ Forall (fun q => Phone.value q <> old) before
    /\ Phone.value p = old
    /\ is_exc (Phone.init new) = false
    /\ s = lit "Phone number for " ++ name ++ lit " updated."
    /\ book' = AddressBook.setitem book name
                 {| Record.name := Record.name r;
                    Record.phones :=
                      before ++ {| Phone.value := new |} :: after;
                    Record.birthday := Record.birthday r |}.
Proof.
  unfold change_contact_func, Record.change_phone.
  destruct args as [|name [|old [|new [|? ?]]]]; try discriminate.
  destruct (AddressBook.get book name) as [r|] eqn:G; [|discriminate].
  destruct (Record.change_phone_loop (Record.phones r) old new) as [ps|] eqn:L;
    [|discriminate].
  cbn [bind]. intros [= <- <-].
  destruct (change_phone_loop_ret_split _ _ _ _ L)
    as (before & p & after & Ph & F & V & A & ->).
  exists name, old, new, r, before, p, after. repeat split; auto.
Qed.

(** X4: [add] and [change] are all or nothing.  Either the command is
    well formed and carried out: for [add], two arguments and an
    acceptable phone, the answer is the success message and the book is
    the book given with the phone appended to the record on file under
    the name (or to a new record); for [change], three arguments, a
    contact on file that has the old phone and an acceptable new phone,
    the answer is the success message and the book is the book given with
    the first phone equal to the old one replaced in that contact's
    record.  Or an exception is raised inside, the answer is its
    ["Error: ..."] line and the book is exactly the book given. *)
Theorem X4_add_and_change_all_or_nothing (args : list pystr)
  (book : AddressBook.t) :
  ((exists name phone,
       args = [name; phone] /\ is_exc (Phone.init phone) = false
       /\ add_contact (args, book)
          = (Ret (lit "Contact " ++ name ++ lit " updated."),
             AddressBook.setitem book name
               {| Record.name := Record.name (record_for book name);
                  Record.phones := Record.phones (record_for book name)
                                   ++ [ {| Phone.value := phone |} ];
                  Record.birthday :=
                    Record.birthday (record_for book name) |}))
   \/ (exists e,
         fst (add_contact_func (args, book)) = Exc e
         /\ add_contact (args, book)
            = (Ret (lit "Error: " ++ exn_msg e), book)))
  /\ ((exists name old new r before p after,
          args = [name; old; new] /\ AddressBook.get book name = Some r
          /\ Record.phones r = before ++ p :: after
          /\ Forall (fun q => Phone.value q <> old) before
          /\ Phone.value p = old
          /\ is_exc (Phone.init new) = false
          /\ change_contact (args, book)
             = (Ret (lit "Phone number for " ++ name ++ lit " updated."),
                AddressBook.setitem book name
                  {| Record.name := Record.name r;
                     Record.phones :=
                       before ++ {| Phone.value := new |} :: after;
                     Record.birthday := Record.birthday r |}))
      \/ (exists e,
            fst (change_contact_func (args, book)) = Exc e
            /\ change_contact (args, book)
               = (Ret (lit "Error: " ++ exn_msg e), book))).
Proof.
  split.
  - destruct (recovered_or_returned add_contact_func (args, book) book
                (tame_recovers _ add_contact_func_tame)
                (add_contact_func_rejects args book))
      as [(s & F & W)|(e & F & W)].
    + left. destruct (add_contact_func_ret _ _ _ _ F)
        as (name & phone & -> & P & _).
      exists name, phone. split; [reflexivity|]. split; [exact P|].
      apply input_error_ret. apply add_contact_func_accepts, P.
    + right. exists e. auto.
  - destruct (recovered_or_returned change_contact_func (args, book) book
                (tame_recovers _ change_contact_func_tame)
                (change_contact_func_rejects args book))
      as [(s & F & W)|(e & F & W)].
    + left. destruct (change_contact_func_ret_full _ _ _ _ F)
        as (name & old & new & r & before & p & after
            & -> & G & Ph & Fb & V & P & Es & Eb).
      exists name, old, new, r, before, p, after.
      split; [reflexivity|]. split; [exact G|]. split; [exact Ph|].
      split; [exact Fb|]. split; [exact V|]. split; [exact P|].
      apply input_error_ret. rewrite F, Es, Eb. reflexivity.
    + right. exists e. auto.
Qed.

Lemma Birthday_init_rejects (s : pystr) :
  is_exc (Birthday.init s) = true ->
  Birthday.init s = Exc Birthday.InvalidFormat.
Proof.
  intros E. destruct (Birthday_init_cases s) as [D|D]; [exact D|].
  rewrite D in E. discriminate.
Qed.

(** X5: [add-birthday] files a contact before it validates the date: with
    a date [Birthday] refuses, the answer is the format error; a contact
    already on file is left as it was, but a name not on file is added to
    the end of the book as a contact with no phones and no birthday
    (unlike [add], which then leaves the book alone). *)
Theorem X5_rejected_birthday_still_files_contact (name b : pystr)
  (book : AddressBook.t) :
  is_exc (Birthday.init b) = true ->
  add_birthday_handler ([name; b], book)
  = (Ret (lit "Error: Birthday must be in DD.MM.YYYY format."),
     match AddressBook.get book name with
     | Some _ => book
     | None => book ++ [(name, Record.init name)]
     end).
Proof.
  intros E. apply Birthday_init_rejects in E.
  unfold add_birthday_handler, input_error, add_birthday_handler_func,
    Record.add_birthday.
  destruct (AddressBook.get book name) as [r|] eqn:G; rewrite E; cbn [bind].
  - reflexivity.
  - unfold AddressBook.add_record. cbn [Record.init Record.name Name.init Name.value].
    rewrite (setitem_absent book name _ G). reflexivity.
Qed.

Lemma X5_rejected_birthday_witness :
  add_birthday_handler ([lit "Ann"; lit "31.02.1990"], john_book)
  = (Ret (lit "Error: Birthday must be in DD.MM.YYYY format."),
     john_book ++ [(lit "Ann", Record.init (lit "Ann"))]).
Proof.
  exact (X5_rejected_birthday_still_files_contact (lit "Ann")
           (lit "31.02.1990") john_book eq_refl).
Defined.

Lemma setitem_setitem (book : AddressBook.t) (key : pystr) (r r' : Record.t) :
  AddressBook.setitem (AddressBook.setitem book key r) key r'
  = AddressBook.setitem book key r'.
Proof.
  induction book as [|[k r0] book IH]; cbn [AddressBook.setitem].
  - rewrite str_eqb_refl. reflexivity.
  - destruct (str_eqb k key) eqn:E; cbn [AddressBook.setitem]; rewrite E.
    + reflexivity.
    + rewrite IH. reflexivity.
Qed.

Lemma add_birthday_handler_func_accepts (name b : pystr)
  (book : AddressBook.t) :
  is_exc (Birthday.init b) = false ->
  add_birthday_handler_func ([name; b], book)
  = (Ret (lit "Birthday added for " ++ name ++ lit "."),
     AddressBook.setitem book name
       {| Record.name := Record.name (record_for book name);
          Record.phones := Record.phones (record_for book name);
          Record.birthday := Some {| Birthday.value := b |} |}).
Proof.
  intros E. apply Birthday_init_accepts in E.
  unfold add_birthday_handler_func, record_for, Record.add_birthday.
  destruct (AddressBook.get book name) as [r|]; rewrite E; cbn [bind].
  - reflexivity.
  - unfold AddressBook.add_record.
    cbn [Record.init Record.name Name.init Name.value].
    rewrite setitem_setitem. reflexivity.
Qed.

(** X6: [add-birthday] with a date that [Birthday] accepts answers
    "Birthday added for <name>." and sets the birthday of the contact on
    file under the name to the string given, replacing any earlier
    birthday (a name not on file becomes a contact with no phones); the
    phones and every other contact stay as they were, and
    [show-birthday <name>] then shows exactly the string given. *)
Theorem X6_add_birthday_sets_birthday (name b : pystr) (book : AddressBook.t) :
  is_exc (Birthday.init b) = false ->
  let old := record_for book name in
  let out := add_birthday_handler ([name; b], book) in
  fst out = Ret (lit "Birthday added for " ++ name ++ lit ".")
  /\ AddressBook.get (snd out) name
     = Some {| Record.name := Record.name old;
               Record.phones := Record.phones old;
               Record.birthday := Some {| Birthday.value := b |} |}
  /\ (forall other, other <> name ->
        AddressBook.get (snd out) other = AddressBook.get book other)
  /\ show_birthday ([name], snd out)
     = (Ret (name ++ lit "'s birthday: " ++ b), snd out).
Proof.
  intros E old out.
  pose proof (add_birthday_handler_func_accepts name b book E) as F.
  assert (O : out = (Ret (lit "Birthday added for " ++ name ++ lit "."),
                     AddressBook.setitem book name
                       {| Record.name := Record.name old;
                          Record.phones := Record.phones old;
                          Record.birthday := Some {| Birthday.value := b |} |}))
    by (apply input_error_ret; exact F).
  rewrite O. cbn [fst snd]. split; [reflexivity|]. split; [|split].
  - apply get_setitem_same.
  - intros other N. apply get_setitem_other, N.
  - unfold show_birthday, input_error, show_birthday_func.
    rewrite get_setitem_same. reflexivity.
Qed.

Lemma X6_add_birthday_witness :
  show_birthday
    ([lit "John"],
     snd (add_birthday_handler ([lit "John"; lit "5.6.1990"], john_book)))
  = (Ret (lit "John's birthday: 5.6.1990"),
     snd (add_birthday_handler ([lit "John"; lit "5.6.1990"], john_book))).
Proof.
  exact (proj2 (proj2 (proj2
    (X6_add_birthday_sets_birthday (lit "John") (lit "5.6.1990") john_book
       eq_refl)))).
Defined.

(** X7: [change] on a contact on file whose phones hold the old phone,
    with a new phone that [Phone] accepts, answers "Phone number for
    <name> updated." and replaces the first phone equal to the old one;
    the other phones, the birthday, every other contact and the order of
    the book stay as they were, and [phone <name>] then lists the phones
    with the new one in the old one's place. *)
Theorem X7_change_replaces_first_match (name old_phone new_phone : pystr)
  (book : AddressBook.t) (r : Record.t) (before after : list Phone.t)
  (p : Phone.t) :
  AddressBook.get book name = Some r ->
  Record.phones r = before ++ p :: after ->
  Forall (fun q => Phone.value q <> old_phone) before ->
  Phone.value p = old_phone ->
  is_exc (Phone.init new_phone) = false ->
  let out := change_contact ([name; old_phone; new_phone], book) in
  fst out = Ret (lit "Phone number for " ++ name ++ lit " updated.")
  /\ AddressBook.get (snd out) name
     = Some {| Record.name := Record.name r;
               Record.phones :=
                 before ++ {| Phone.value := new_phone |} :: after;
               Record.birthday := Record.birthday r |}
  /\ (forall other, other <> name ->
        AddressBook.get (snd out) other = AddressBook.get book other)
  /\ AddressBook.keys (snd out) = AddressBook.keys book
  /\ show_phone ([name], snd out)
     = (Ret (name ++ lit ": "
             ++ join (lit ", ")
                  (map Phone.value before ++ new_phone
                   :: map Phone.value after)),
        snd out).
Proof.
  intros G Ph Hb Hp E out. apply Phone_init_accepts in E.
  assert (F : change_contact_func ([name; old_phone; new_phone], book)
              = (Ret (lit "Phone number for " ++ name ++ lit " updated."),
                 AddressBook.setitem book name
                   {| Record.name := Record.name r;
                      Record.phones :=
                        before ++ {| Phone.value := new_phone |} :: after;
                      Record.birthday := Record.birthday r |})).
  { unfold change_contact_func, Record.change_phone. rewrite G, Ph.
    rewrite (change_phone_loop_found before after p _ _ Hb Hp), E.
    reflexivity. }
  assert (O : out = (Ret (lit "Phone number for " ++ name ++ lit " updated."),
                     AddressBook.setitem book name
                       {| Record.name := Record.name r;
                          Record.phones :=
                            before ++ {| Phone.value := new_phone |} :: after;
                          Record.birthday := Record.birthday r |}))
    by (apply input_error_ret; exact F).
  rewrite O. cbn [fst snd]. split; [reflexivity|]. split; [|split; [|split]].
  - apply get_setitem_same.
  - intros other N. apply get_setitem_other, N.
  - eapply setitem_present_keys; eauto.
  - unfold show_phone, input_error, show_phone_func.
    rewrite get_setitem_same. cbn [Record.phones].
    rewrite map_app. reflexivity.
Qed.

Lemma X7_change_replaces_first_match_witness :
  show_phone
    ([lit "John"],
     snd (change_contact
            ([lit "John"; lit "1234567890"; lit "5555555555"], john_book)))
  = (Ret (lit "John: 5555555555"),
     snd (change_contact
            ([lit "John"; lit "1234567890"; lit "5555555555"], john_book))).
Proof.
  refine (proj2 (proj2 (proj2 (proj2
    (X7_change_replaces_first_match (lit "John") (lit "1234567890")
       (lit "5555555555") john_book _ [] []
       {| Phone.value := lit "1234567890" |}
       eq_refl eq_refl (Forall_nil _) eq_refl eq_refl))))).
Defined.

(** X8: a name that is not on file: [change], [phone] and [show-birthday]
    answer with the error line of the attribute access on [None] and leave
    the book as it was; they never create the contact. *)
Theorem X8_unknown_name_is_an_error (name : pystr) (rest : list pystr)
  (old_phone new_phone : pystr) (book : AddressBook.t) :
  AddressBook.get book name = None ->
  change_contact ([name; old_phone; new_phone], book)
  = (Ret (lit "Error: 'NoneType' object has no attribute 'change_phone'"),
     book)
  /\ show_phone (name :: rest, book)
     = (Ret (lit "Error: 'NoneType' object has no attribute 'phones'"), book)
  /\ show_birthday (name :: rest, book)
     = (Ret (lit "Error: 'NoneType' object has no attribute 'birthday'"),
        book).
Proof.
  intros G.
  unfold change_contact, show_phone, show_birthday, input_error,
    change_contact_func, show_phone_func, show_birthday_func.
  rewrite G. repeat split.
Qed.

Lemma X8_unknown_name_witness :
  show_phone ([lit "Ann"], john_book)
  = (Ret (lit "Error: 'NoneType' object has no attribute 'phones'"),
     john_book).
Proof.
  exact (proj1 (proj2
    (X8_unknown_name_is_an_error (lit "Ann") [] [] [] john_book eq_refl))).
Defined.

(** ** Names on file *)

Lemma token_snoc (word : pystr) (c : char) :
  word = [] \/ token word -> isspace_char c = false -> token (word ++ [c]).
Proof.
  intros W C. split.
  - destruct word; discriminate.
  - rewrite forallb_app. cbn [forallb]. rewrite C. cbn [negb andb].
    rewrite andb_true_r. destruct W as [->|[_ W]]; [reflexivity | exact W].
Qed.

Lemma split_from_tokens (s word : pystr) :
  word = [] \/ token word -> Forall token (split_from word s).
Proof.
  revert word. induction s as [|c s IH]; intros word W; cbn [split_from].
  - destruct word as [|x word]; [constructor|].
    destruct W as [W|W]; [discriminate | constructor; [exact W | constructor]].
  - destruct (isspace_char c) eqn:C.
    + destruct word as [|x word]; [apply IH; auto|].
      destruct W as [W|W]; [discriminate|].
      constructor; [exact W | apply IH; auto].
    + apply IH. right. apply token_snoc; assumption.
Qed.

Lemma split_tokens (s : pystr) : Forall token (split s).
Proof. apply split_from_tokens. left; reflexivity. Qed.

Lemma get_named (book : AddressBook.t) (key : pystr) (r : Record.t) :
  book_named book -> AddressBook.get book key = Some r ->
  Name.value (Record.name r) = key /\ token key.
Proof.
  unfold book_named.
  induction book as [|[k r0] book IH]; cbn [AddressBook.get]; [discriminate|].
  intros H. apply Forall_cons_iff in H. destruct H as [[H1 H2] H3].
  cbn [fst snd] in *.
  destruct (str_eqb k key) eqn:E; [|intros G; apply IH; assumption].
  apply str_eqb_eq in E. rewrite <- E. intros [= <-]. split; assumption.
Qed.

Lemma setitem_named (book : AddressBook.t) (key : pystr) (r : Record.t) :
  book_named book -> Name.value (Record.name r) = key -> token key ->
  book_named (AddressBook.setitem book key r).
Proof.
  unfold book_named. intros H N T.
  induction book as [|[k r0] book IH]; cbn [AddressBook.setitem].
  - constructor; [auto | constructor].
  - apply Forall_cons_iff in H. destruct H as [[H1 H2] H3].
    cbn [fst snd] in *.
    destruct (str_eqb k key) eqn:E.
    + apply str_eqb_eq in E. constructor; [|exact H3].
      cbn [fst snd]. rewrite E. auto.
    + constructor; auto.
Qed.

Lemma add_phone_name (r r' : Record.t) (phone : pystr) :
  Record.add_phone r phone = Ret r' -> Record.name r' = Record.name r.
Proof.
  unfold Record.add_phone. destruct (Phone.init phone); [|discriminate].
  intros [= <-]. reflexivity.
Qed.

Lemma change_phone_name (r r' : Record.t) (old new : pystr) :
  Record.change_phone r old new = Ret r' -> Record.name r' = Record.name r.
Proof.
  unfold Record.change_phone.
  destruct (Record.change_phone_loop (Record.phones r) old new);
    [|discriminate].
  intros [= <-]. reflexivity.
Qed.

Lemma add_birthday_name (r r' : Record.t) (b : pystr) :
  Record.add_birthday r b = Ret r' -> Record.name r' = Record.name r.
Proof.
  unfold Record.add_birthday. destruct (Birthday.init b); [|discriminate].
  intros [= <-]. reflexivity.
Qed.

Lemma add_contact_named (args : list pystr) (book : AddressBook.t) :
  Forall token args -> book_named book ->
  book_named (snd (add_contact_func (args, book))).
Proof.
  intros T H. unfold add_contact_func.
  destruct args as [|name [|phone [|? ?]]]; auto.
  inversion T as [|? ? Tn _]; subst.
  destruct (AddressBook.get book name) as [r|] eqn:G.
  - destruct (Record.add_phone r phone) as [r'|] eqn:E; auto.
    apply setitem_named; auto.
    rewrite (add_phone_name _ _ _ E). eapply get_named; eauto.
  - destruct (Record.add_phone (Record.init name) phone) as [r'|] eqn:E; auto.
    unfold AddressBook.add_record. rewrite (add_phone_name _ _ _ E).
    apply setitem_named; auto. rewrite (add_phone_name _ _ _ E). reflexivity.
Qed.

Lemma change_contact_named (args : list pystr) (book : AddressBook.t) :
  book_named book -> book_named (snd (change_contact_func (args, book))).
Proof.
  intros H. unfold change_contact_func.
  destruct args as [|name [|old [|new [|? ?]]]]; auto.
  destruct (AddressBook.get book name) as [r|] eqn:G; auto.
  destruct (Record.change_phone r old new) as [r'|] eqn:E; auto.
  destruct (get_named _ _ _ H G) as [N T].
  apply setitem_named; auto. rewrite (change_phone_name _ _ _ _ E). exact N.
Qed.

Lemma add_birthday_handler_named (args : list pystr) (book : AddressBook.t) :
  Forall token args -> book_named book ->
  book_named (snd (add_birthday_handler_func (args, book))).
Proof.
  intros T H. unfold add_birthday_handler_func.
  destruct args as [|name [|b [|? ?]]]; auto.
  inversion T as [|? ? Tn _]; subst.
  destruct (AddressBook.get book name) as [r|] eqn:G.
  - destruct (Record.add_birthday r b) as [r'|] eqn:E; auto.
    destruct (get_named _ _ _ H G) as [N _].
    apply setitem_named; auto. rewrite (add_birthday_name _ _ _ E). exact N.
  - assert (H' : book_named (AddressBook.add_record book (Record.init name)))
      by (apply setitem_named; auto).
    destruct (Record.add_birthday (Record.init name) b) as [r'|] eqn:E; auto.
    apply setitem_named; auto. rewrite (add_birthday_name _ _ _ E).
    reflexivity.
Qed.

Lemma handler_named (today : date.t) (command : pystr) (h : handler)
  (args : list pystr) (book : AddressBook.t) :
  lookup command (commands today) = Some h ->
  Forall token args -> book_named book ->
  book_named
    (snd match h with
         | with_args f => f (args, book)
         | book_only f => f book
         end).
Proof.
  unfold commands. cbn [lookup]. intros L T H.
  repeat match type of L with
         | (if ?c then _ else _) = _ => destruct c
         end;
    try discriminate; injection L as <-;
    unfold add_contact, change_contact, show_phone, show_all,
      add_birthday_handler, show_birthday, upcoming_birthdays;
    rewrite input_error_book;
    auto using add_contact_named, change_contact_named,
      add_birthday_handler_named.
  - rewrite show_phone_book; auto.
  - rewrite show_birthday_book; auto.
  - rewrite upcoming_birthdays_book; auto.
Qed.

Lemma main_turn_named (lower : pystr -> pystr) (today : date.t) (line : pystr)
  (book : AddressBook.t) (printed : list pystr) (book' : AddressBook.t) :
  book_named book ->
  main_turn lower today line book = Continue printed book' ->
  book_named book'.
Proof.
  intros H. unfold main_turn.
  pose proof (split_tokens (strip line)) as T.
  destruct (split (strip line)) as [|word args]; [intros [= _ <-]; auto|].
  inversion T as [|? ? _ Ta]; subst.
  destruct (mem (lower word) [lit "close"; lit "exit"]); [discriminate|].
  destruct (str_eqb (lower word) (lit "hello")); [intros [= _ <-]; auto|].
  destruct (lookup (lower word) (commands today)) as [h|] eqn:L;
    [|intros [= _ <-]; auto].
  pose proof (handler_named today _ h args book L Ta H) as K.
  destruct (mem (lower word) [lit "all"; lit "birthdays"]);
    destruct h as [f|f]; try discriminate;
    intros E; apply print_outcome_book in E; subst; exact K.
Qed.

Lemma john_book_reachable : reachable john_book.
Proof.
  apply (reach_turn ascii_lower monday_10_06_2024
           (lit "add John 1234567890") AddressBook.empty
           [lit "Contact John updated."] john_book reach_empty).
  vm_compute. reflexivity.
Qed.

(** X9: in every book the program can reach, a record is filed under the
    very name it carries, and that name is a word of a command line: not
    empty and without a blank. *)
Theorem X9_records_filed_under_their_names (book : AddressBook.t) :
  reachable book ->
  book_named book
  /\ (forall key r,
         AddressBook.get book key = Some r ->
         Name.value (Record.name r) = key /\ token key).
Proof.
  intros R.
  assert (N : book_named book).
  { induction R as [|lower today line book printed book' _ IH E].
    - constructor.
    - eapply main_turn_named; eauto. }
  split; [exact N|]. intros key r. apply get_named, N.
Qed.

Lemma X9_records_filed_witness :
  reachable john_book /\ book_named john_book.
Proof.
  split; [exact john_book_reachable |].
  exact (proj1 (X9_records_filed_under_their_names john_book
                  john_book_reachable)).
Defined.

(** ** Lines and answers *)

Lemma dropwhile_all {A} (p : A -> bool) (l : list A) :
  forallb p l = true -> dropwhile p l = [].
Proof.
  induction l as [|x l IH]; cbn [forallb dropwhile]; [reflexivity|].
  destruct (p x); [exact IH | discriminate].
Qed.

Lemma dropwhile_keeps {A} (p : A -> bool) (l : list A) (c : A) :
  In c l -> p c = false -> In c (dropwhile p l).
Proof.
  intros I C. induction l as [|x l IH]; cbn [dropwhile]; [exact I|].
  destruct (p x) eqn:E; [|exact I].
  destruct I as [->|I]; [congruence | auto].
Qed.

Lemma strip_blank (s : pystr) :
  forallb isspace_char s = true -> strip s = [].
Proof. intros H. unfold strip. rewrite (dropwhile_all _ _ H). reflexivity. Qed.

Lemma strip_keeps (s : pystr) (c : char) :
  In c s -> isspace_char c = false -> In c (strip s).
Proof.
  intros I C. unfold strip. rewrite <- in_rev.
  apply dropwhile_keeps; [|exact C]. rewrite <- in_rev.
  apply dropwhile_keeps; assumption.
Qed.

Lemma split_from_nonempty (s word : pystr) :
  word <> [] \/ (exists c, In c s /\ isspace_char c = false) ->
  split_from word s <> [].
Proof.
  revert word. induction s as [|c s IH]; intros word H; cbn [split_from].
  - destruct H as [H|(c & [] & _)]. destruct word; [congruence | discriminate].
  - destruct (isspace_char c) eqn:C.
    + destruct word as [|x word]; [|discriminate].
      apply IH. destruct H as [H|(c' & [<-|I] & C')];
        [congruence | congruence | right; eauto].
    + apply IH. left. destruct word; discriminate.
Qed.

Lemma split_strip_blank (line : pystr) :
  split (strip line) = [] <-> forallb isspace_char line = true.
Proof.
  split.
  - intros S. destruct (forallb isspace_char line) eqn:F; [reflexivity|].
    exfalso. revert S. apply split_from_nonempty. right.
    assert (X : exists c, In c line /\ isspace_char c = false).
    { induction line as [|x line IH]; [discriminate|].
      cbn [forallb] in F. destruct (isspace_char x) eqn:E.
      - destruct (IH F) as (c & I & C). exists c. split; [right|]; assumption.
      - exists x. split; [left; reflexivity | exact E]. }
    destruct X as (c & I & C). exists c. split; [|exact C].
    apply strip_keeps; assumption.
  - intros F. rewrite (strip_blank _ F). reflexivity.
Qed.

(** X10: a line of blanks only (or an empty line) is skipped: nothing is
    printed and the book stays; any other line gets exactly one answer:
    either the loop ends with "Goodbye!", handing the book it holds to
    [save_data], or exactly one string is printed; no exception escapes. *)
Theorem X10_one_answer_per_line (lower : pystr -> pystr) (today : date.t)
  (line : pystr) (book : AddressBook.t) :
  if forallb isspace_char line
  then main_turn lower today line book = Continue [] book
  else match main_turn lower today line book with
       | Continue printed _ => List.length printed = 1%nat
       | Break printed saved => printed = [lit "Goodbye!"] /\ saved = book
       | Uncaught _ _ => False
       end.
Proof.
  destruct (forallb isspace_char line) eqn:F.
  - apply split_strip_blank in F. unfold main_turn. rewrite F. reflexivity.
  - pose proof (main_turn_no_crash lower today line book) as NC.
    unfold main_turn in *.
    destruct (split (strip line)) as [|word args] eqn:S.
    { apply split_strip_blank in S. congruence. }
    destruct (mem (lower word) [lit "close"; lit "exit"]); [auto|].
    destruct (str_eqb (lower word) (lit "hello")); [reflexivity|].
    destruct (lookup (lower word) (commands today)) as [h|]; [|reflexivity].
    destruct (mem (lower word) [lit "all"; lit "birthdays"]);
      destruct h as [f|f]; try (exfalso; eapply NC; reflexivity).
    + destruct (f book) as [[s|e] b]; cbn [print_outcome] in *;
        [reflexivity | exfalso; eapply NC; reflexivity].
    + destruct (f (args, book)) as [[s|e] b]; cbn [print_outcome] in *;
        [reflexivity | exfalso; eapply NC; reflexivity].
Qed.

(** ** The list of upcoming birthdays *)

Lemma entries_cons (o : option (pystr * pystr))
  (os : list (option (pystr * pystr))) :
  entries (o :: os)
  = match o with Some p => [p] | None => [] end ++ entries os.
Proof. reflexivity. Qed.

Lemma upcoming_loop_ret_iff (today : date.t) (records : list Record.t) :
  forall acc l,
    AddressBook.upcoming_loop today records acc = Ret l
    <-> exists os,
        Forall2 (fun r o => AddressBook.upcoming_of today r = Ret o)
                records os
        /\ l = acc ++ entries os.
Proof.
  induction records as [|r records IH]; intros acc l;
    cbn [AddressBook.upcoming_loop].
  - split.
    + intros [= <-]. exists []. split; [constructor|].
      rewrite app_nil_r. reflexivity.
    + intros (os & F & ->). inversion F; subst.
      rewrite app_nil_r. reflexivity.
  - split.
    + destruct (AddressBook.upcoming_of today r) as [o|e] eqn:E;
        [|discriminate].
      cbn [bind]. intros H. apply IH in H. destruct H as (os & F & ->).
      exists (o :: os). split; [constructor; assumption|].
      rewrite entries_cons. destruct o; [|reflexivity].
      rewrite <- app_assoc. reflexivity.
    + intros (os & F & ->). inversion F as [|? o ? os' E F']; subst.
      rewrite E. cbn [bind]. apply IH. exists os'. split; [exact F'|].
      rewrite entries_cons. destruct o; [|reflexivity].
      rewrite <- app_assoc. reflexivity.
Qed.

Lemma upcoming_loop_exc_iff (today : date.t) (records : list Record.t) :
  forall acc e,
    AddressBook.upcoming_loop today records acc = Exc e
    <-> exists before r after,
        records = before ++ r :: after
        /\ Forall (fun r => is_exc (AddressBook.upcoming_of today r) = false)
                  before
        /\ AddressBook.upcoming_of today r = Exc e.
Proof.
  induction records as [|r records IH]; intros acc e;
    cbn [AddressBook.upcoming_loop].
  - split; [discriminate|].
    intros (before & r & after & E & _). destruct before; discriminate.
  - split.
    + destruct (AddressBook.upcoming_of today r) as [o|e1] eqn:E; cbn [bind].
      * intros H. apply IH in H.
        destruct H as (before & r1 & after & -> & F & X).
        exists (r :: before), r1, after. split; [reflexivity|].
        split; [|exact X]. constructor; [rewrite E; reflexivity | exact F].
      * intros [= <-]. exists [], r, records. repeat split; auto.
    + intros (before & r1 & after & E & F & X).
      destruct before as [|r0 before]; cbn [app] in E; injection E as <- ->.
      * rewrite X. reflexivity.
      * apply Forall_cons_iff in F. destruct F as [F0 F].
        destruct (AddressBook.upcoming_of today r) as [o|e1];
          [|discriminate].
        cbn [bind]. apply IH. exists before, r1, after. auto.
Qed.

(** X11: the list of upcoming birthdays holds, in the order of the book,
    one pair for each record for which the loop body yields one, and
    nothing else; the call raises exactly when the body raises for some
    record, and then with the exception of the first such record. *)
Theorem X11_upcoming_in_book_order (today : date.t) (book : AddressBook.t) :
  (forall l,
      AddressBook.get_upcoming_birthdays today book = Ret l
      <-> exists os,
          Forall2 (fun r o => AddressBook.upcoming_of today r = Ret o)
                  (AddressBook.values book) os
          /\ l = entries os)
  /\ (forall e,
         AddressBook.get_upcoming_birthdays today book = Exc e
         <-> exists before r after,
             AddressBook.values book = before ++ r :: after
             /\ Forall
                  (fun r => is_exc (AddressBook.upcoming_of today r) = false)
                  before
             /\ AddressBook.upcoming_of today r = Exc e).
Proof.
  split.
  - intros l. unfold AddressBook.get_upcoming_birthdays.
    rewrite upcoming_loop_ret_iff. reflexivity.
  - intros e. apply upcoming_loop_exc_iff.
Qed.

Lemma upcoming_loop_no_birthdays (today : date.t) (records : list Record.t)
  (acc : list (pystr * pystr)) :
  Forall (fun r => Record.birthday r = None) records ->
  AddressBook.upcoming_loop today records acc = Ret acc.
Proof.
  induction 1 as [|r records H _ IH]; cbn [AddressBook.upcoming_loop];
    [reflexivity|].
  unfold AddressBook.upcoming_of. rewrite H. cbn [bind]. exact IH.
Qed.

(** X12: a book in which no contact has a birthday (the empty book, or
    contacts with phones only) has no upcoming birthdays: the scan returns
    the empty list and [birthdays] answers "No upcoming birthdays.",
    whatever the date. *)
Theorem X12_no_birthdays_on_file (today : date.t) (book : AddressBook.t) :
  Forall (fun r => Record.birthday r = None) (AddressBook.values book) ->
  AddressBook.get_upcoming_birthdays today book = Ret []
  /\ upcoming_birthdays today book
     = (Ret (lit "No upcoming birthdays."), book).
Proof.
  intros H.
  assert (G : AddressBook.get_upcoming_birthdays today book = Ret [])
    by (apply upcoming_loop_no_birthdays; exact H).
  split; [exact G|].
  unfold upcoming_birthdays, input_error, upcoming_birthdays_func.
  rewrite G. reflexivity.
Qed.

Lemma X12_no_birthdays_witness :
  upcoming_birthdays monday_10_06_2024 john_book
  = (Ret (lit "No upcoming birthdays."), john_book).
Proof.
  refine (proj2 (X12_no_birthdays_on_file monday_10_06_2024 john_book _)).
  repeat constructor.
Defined.

(** ** The dates of the reminders *)

Lemma toordinal_in_year (d : date.t) :
  date.valid d ->
  date.days_before_year (date.year d) + 1 <= date.toordinal d
  <= date.days_before_year (date.year d + 1).
Proof.
  intros (Hy & Hm & Hd). unfold date.toordinal, date.ymd2ord.
  pose proof (days_through_month (date.year d) (date.month d) Hm) as [B1 B2].
  rewrite days_before_next_year. lia.
Qed.

Lemma month_order (y m1 m2 : Z) :
  1 <= m1 -> m1 < m2 -> m2 <= 12 ->
  date.days_before_month y m1 + date.days_in_month y m1
  <= date.days_before_month y m2.
Proof.
  intros H1 H12 H2.
  assert (M1 : 1 <= m1 <= 12) by lia. assert (M2 : 1 <= m2 <= 12) by lia.
  unfold date.days_before_month, date.days_in_month, date.index,
    date.DAYS_IN_MONTH, date.DAYS_BEFORE_MONTH, date.b2z.
  each_month M1; each_month M2; try lia;
    destruct (date.is_leap y); simpl; lia.
Qed.

Lemma ltb_false_ordinal (a b : date.t) :
  date.valid a -> date.valid b -> date.year a = date.year b ->
  date.ltb a b = false -> date.toordinal b <= date.toordinal a.
Proof.
  intros (_ & Ma & Da) (_ & Mb & Db) Y L.
  unfold date.ltb in L. rewrite Y, Z.ltb_irrefl, Z.eqb_refl in L.
  cbn [orb andb] in L. apply orb_false_iff in L. destruct L as [L1 L2].
  apply Z.ltb_ge in L1. unfold date.toordinal, date.ymd2ord. rewrite Y in *.
  destruct (Z.eq_dec (date.month a) (date.month b)) as [E|N].
  - rewrite E, Z.eqb_refl in L2. cbn [andb] in L2. apply Z.ltb_ge in L2.
    rewrite E. lia.
  - pose proof (month_order (date.year b) (date.month b) (date.month a)
                  ltac:(lia) ltac:(lia) ltac:(lia)).
    lia.
Qed.

Lemma next_occurrence_not_past (today bday occ : date.t) :
  date.valid today -> next_occurrence today bday = Ret occ ->
  date.toordinal today <= date.toordinal occ.
Proof.
  intros V. unfold next_occurrence.
  destruct (date.replace_year bday (date.year today)) as [this|] eqn:E1;
    [|discriminate].
  cbn [bind]. apply replace_year_valid in E1.
  destruct E1 as (V1 & Y1 & _).
  destruct (date.ltb this today) eqn:L.
  - intros E2. apply replace_year_valid in E2. destruct E2 as (V2 & Y2 & _).
    pose proof (toordinal_in_year occ V2) as B2.
    pose proof (toordinal_in_year today V) as B. rewrite Y2 in B2. lia.
  - intros [= <-]. apply ltb_false_ordinal; auto.
Qed.

Lemma weekday_range (d : date.t) : 0 <= date.weekday d < 7.
Proof. unfold date.weekday. apply Z.mod_pos_bound. lia. Qed.

Lemma upcoming_of_some (today : date.t) (r : Record.t) (n s : pystr) :
  AddressBook.upcoming_of today r = Ret (Some (n, s)) ->
  exists b bday occ,
    Record.birthday r = Some b
    /\ strptime.parse (Birthday.value b) = Ret bday
    /\ next_occurrence today bday = Ret occ
    /\ date.sub_days occ today <= 7
    /\ n = Name.value (Record.name r)
    /\ s = date.strftime (shift_weekend occ).
Proof.
  rewrite upcoming_of_eq.
  destruct (Record.birthday r) as [b|]; [|discriminate].
  destruct (strptime.parse (Birthday.value b)) as [bday|] eqn:P;
    [|discriminate].
  cbn [bind].
  destruct (next_occurrence today bday) as [occ|] eqn:N; [|discriminate].
  cbn [bind].
  destruct (date.sub_days occ today <=? 7) eqn:D; [|discriminate].
  apply Z.leb_le in D. intros [= <- <-].
  exists b, bday, occ. repeat split; auto.
Qed.

Lemma entries_in (os : list (option (pystr * pystr))) (p : pystr * pystr) :
  In p (entries os) <-> In (Some p) os.
Proof.
  induction os as [|o os IH]; [tauto|].
  rewrite entries_cons, in_app_iff, IH. cbn [In].
  destruct o as [q|]; cbn [In]; split.
  - intros [[<-|[]]|H]; auto.
  - intros [[= <-]|H]; auto.
  - intros [[]|H]; auto.
  - intros [H|H]; [discriminate | auto].
Qed.

Lemma Forall2_in_r {A B} (R : A -> B -> Prop) (l : list A) (l' : list B)
  (y : B) :
  Forall2 R l l' -> In y l' -> exists x, In x l /\ R x y.
Proof.
  induction 1 as [|x0 y0 l l' H _ IH]; [intros []|].
  intros [<-|I].
  - exists x0. split; [left; reflexivity | exact H].
  - destruct (IH I) as (x & Ix & Rx). exists x. split; [right|]; assumption.
Qed.

(** X13: what a reminder can be: every pair in the list of upcoming
    birthdays carries the name of a record of the book that has a
    birthday, and its date is the next occurrence of that birthday's day
    and month, which is today or at most 7 days ahead, moved off the
    weekend: the date announced is never a Saturday or a Sunday and is
    today or at most 9 days ahead. *)
Theorem X13_reminder_dates (today : date.t) (book : AddressBook.t)
  (l : list (pystr * pystr)) (n s : pystr) :
  date.valid today ->
  AddressBook.get_upcoming_birthdays today book = Ret l ->
  In (n, s) l ->
  exists r b bday occ,
    In r (AddressBook.values book)
    /\ Record.birthday r = Some b
    /\ strptime.parse (Birthday.value b) = Ret bday
    /\ n = Name.value (Record.name r)
    /\ next_occurrence today bday = Ret occ
    /\ date.month occ = date.month bday /\ date.day occ = date.day bday
    /\ 0 <= date.sub_days occ today <= 7
    /\ s = date.strftime (shift_weekend occ)
    /\ date.valid (shift_weekend occ)
    /\ date.weekday (shift_weekend occ) < 5
    /\ 0 <= date.sub_days (shift_weekend occ) today <= 9.
Proof.
  intros V G I. unfold AddressBook.get_upcoming_birthdays in G.
  apply upcoming_loop_ret_iff in G. destruct G as (os & F & ->).
  cbn [app] in I. apply entries_in in I.
  destruct (Forall2_in_r _ _ _ _ F I) as (r & Ir & U).
  apply upcoming_of_some in U.
  destruct U as (b & bday & occ & Hb & P & N & D & -> & ->).
  destruct (next_occurrence_valid _ _ _ N) as (Vo & Mo & Do).
  pose proof (next_occurrence_not_past _ _ _ V N) as NP.
  destruct (shift_weekend_spec occ Vo) as (Vs & S5 & S6 & Sw).
  pose proof (weekday_range occ) as W.
  exists r, b, bday, occ.
  assert (K : date.weekday (shift_weekend occ) < 5
              /\ 0 <= date.sub_days (shift_weekend occ) today <= 9).
  { unfold date.sub_days in *.
    destruct (Z.eq_dec (date.weekday occ) 5) as [E5|N5];
      [destruct (S5 E5); lia|].
    destruct (Z.eq_dec (date.weekday occ) 6) as [E6|N6];
      [destruct (S6 E6); lia|].
    rewrite Sw by lia. lia. }
  destruct K as [K1 K2].
  split; [exact Ir|]. split; [exact Hb|]. split; [exact P|].
  split; [reflexivity|]. split; [exact N|]. split; [exact Mo|].
  split; [exact Do|]. split; [unfold date.sub_days in *; lia|].
  split; [reflexivity|]. split; [exact Vs|]. split; [exact K1 | exact K2].
Qed.

Lemma X13_reminder_dates_witness :
  exists r b bday occ,
    In r (AddressBook.values [(lit "John", contact "John" "15.06.1990")])
    /\ Record.birthday r = Some b
    /\ strptime.parse (Birthday.value b) = Ret bday
    /\ lit "John" = Name.value (Record.name r)
    /\ next_occurrence monday_10_06_2024 bday = Ret occ
    /\ date.month occ = date.month bday /\ date.day occ = date.day bday
    /\ 0 <= date.sub_days occ monday_10_06_2024 <= 7
    /\ lit "17.06.2024" = date.strftime (shift_weekend occ)
    /\ date.valid (shift_weekend occ)
    /\ date.weekday (shift_weekend occ) < 5
    /\ 0 <= date.sub_days (shift_weekend occ) monday_10_06_2024 <= 9.
Proof.
  apply (X13_reminder_dates monday_10_06_2024
           [(lit "John", contact "John" "15.06.1990")]
           [(lit "John", lit "17.06.2024")]).
  - repeat split; vm_compute; discriminate.
  - vm_compute. reflexivity.
  - left. reflexivity.
Defined.

Lemma next_occurrence_month_day (today d1 d2 : date.t) :
  date.month d1 = date.month d2 -> date.day d1 = date.day d2 ->
  next_occurrence today d1 = next_occurrence today d2.
Proof.
  intros M D. unfold next_occurrence, date.replace_year. rewrite M, D.
  reflexivity.
Qed.

(** X14: the year of birth plays no part: two contacts of the same name
    whose birthdays have the same day and month are treated alike by the
    scan, on every date. *)
Theorem X14_birth_year_is_irrelevant (today : date.t) (r1 r2 : Record.t)
  (b1 b2 : Birthday.t) (d1 d2 : date.t) :
  Record.birthday r1 = Some b1 -> Record.birthday r2 = Some b2 ->
  strptime.parse (Birthday.value b1) = Ret d1 ->
  strptime.parse (Birthday.value b2) = Ret d2 ->
  date.month d1 = date.month d2 -> date.day d1 = date.day d2 ->
  Record.name r1 = Record.name r2 ->
  AddressBook.upcoming_of today r1 = AddressBook.upcoming_of today r2.
Proof.
  intros B1 B2 P1 P2 M D N.
  rewrite !upcoming_of_eq, B1, B2, P1, P2. cbn [bind].
  rewrite (next_occurrence_month_day today d1 d2 M D), N. reflexivity.
Qed.

Lemma X14_birth_year_witness :
  AddressBook.upcoming_of monday_10_06_2024 (contact "Ann" "15.06.1990")
  = AddressBook.upcoming_of monday_10_06_2024 (contact "Ann" "15.06.2001").
Proof.
  exact (X14_birth_year_is_irrelevant monday_10_06_2024
           (contact "Ann" "15.06.1990") (contact "Ann" "15.06.2001")
           {| Birthday.value := lit "15.06.1990" |}
           {| Birthday.value := lit "15.06.2001" |}
           {| date.year := 1990; date.month := 6; date.day := 15 |}
           {| date.year := 2001; date.month := 6; date.day := 15 |}
           eq_refl eq_refl eq_refl eq_refl eq_refl eq_refl eq_refl).
Defined.

(** ** When the scan fails *)

Lemma parse_valid (s : pystr) (d : date.t) :
  strptime.parse s = Ret d -> date.valid d.
Proof.
  intros P. apply parse_ret_iff in P.
  destruct P as (dd & m & y & _ & _ & _ & _ & N).
  apply new_ret in N. apply N.
Qed.

Lemma february_days (y : Z) :
  date.days_in_month y 2 = if date.is_leap y then 29 else 28.
Proof. unfold date.days_in_month. destruct (date.is_leap y); reflexivity. Qed.

Lemma other_month_days (y y' m : Z) :
  m <> 2 -> date.days_in_month y m = date.days_in_month y' m.
Proof.
  intros N. unfold date.days_in_month.
  apply Z.eqb_neq in N. rewrite N. reflexivity.
Qed.

Lemma replace_year_plain (d : date.t) (y : Z) :
  date.valid d -> leap_day d = false -> 1 <= y <= 9999 ->
  date.replace_year d y
  = Ret {| date.year := y; date.month := date.month d;
           date.day := date.day d |}.
Proof.
  intros (Hy & Hm & Hd) L Y. unfold date.replace_year.
  apply (new_valid {| date.year := y; date.month := date.month d;
                      date.day := date.day d |}).
  unfold date.valid, date.MINYEAR, date.MAXYEAR.
  cbn [date.year date.month date.day].
  split; [lia|]. split; [lia|]. split; [lia|].
  destruct (Z.eq_dec (date.month d) 2) as [E|N].
  - unfold leap_day in L. rewrite E in *.
    change (2 =? 2) with true in L. cbn [andb] in L. apply Z.eqb_neq in L.
    rewrite february_days in *.
    destruct (date.is_leap y); destruct (date.is_leap (date.year d)); lia.
  - rewrite (other_month_days y (date.year d) _ N). lia.
Qed.

Lemma leap_year_next (y : Z) :
  date.is_leap y = true -> date.is_leap (y + 1) = false.
Proof.
  unfold date.is_leap. rewrite !andb_true_iff, Z.eqb_eq. intros [H _].
  apply andb_false_iff. left. apply Z.eqb_neq.
  Z.div_mod_to_equations. lia.
Qed.

Lemma new_day_out_of_range (y : Z) :
  1 <= y <= 9999 -> date.is_leap y = false ->
  date.new y 2 29 = Exc day_out_of_range.
Proof.
  intros Y L. unfold date.new, date.MINYEAR, date.MAXYEAR.
  replace ((1 <=? y) && (y <=? 9999)) with true
    by (symmetry; apply andb_true_iff; split; apply Z.leb_le; lia).
  rewrite february_days, L. reflexivity.
Qed.

Lemma new_leap_day (y : Z) :
  1 <= y <= 9999 -> date.is_leap y = true ->
  date.new y 2 29
  = Ret {| date.year := y; date.month := 2; date.day := 29 |}.
Proof.
  intros Y L. unfold date.new, date.MINYEAR, date.MAXYEAR.
  replace ((1 <=? y) && (y <=? 9999)) with true
    by (symmetry; apply andb_true_iff; split; apply Z.leb_le; lia).
  rewrite february_days, L. reflexivity.
Qed.

Lemma next_occurrence_cases (today bday : date.t) :
  date.valid today -> date.year today < 9999 -> date.valid bday ->
  if no_next_occurrence today bday
  then next_occurrence today bday = Exc day_out_of_range
  else exists occ, next_occurrence today bday = Ret occ.
Proof.
  intros V Y Vb. pose proof V as ((Y1 & Y2) & _).
  unfold date.MINYEAR in Y1. unfold no_next_occurrence.
  destruct (leap_day bday) eqn:L; cbn [andb].
  - unfold leap_day in L. apply andb_true_iff in L.
    rewrite !Z.eqb_eq in L. destruct L as [M D].
    unfold next_occurrence, date.replace_year. rewrite M, D.
    destruct (date.is_leap (date.year today)) eqn:IL; cbn [negb orb].
    + rewrite (new_leap_day (date.year today) ltac:(lia) IL). cbn [bind].
      destruct (date.ltb _ today); [|eauto].
      cbn [date.month date.day].
      apply new_day_out_of_range; [lia | apply leap_year_next, IL].
    + rewrite (new_day_out_of_range (date.year today) ltac:(lia) IL).
      reflexivity.
  - unfold next_occurrence.
    rewrite (replace_year_plain bday (date.year today) Vb L ltac:(lia)).
    cbn [bind]. destruct (date.ltb _ today); [|eauto].
    eexists. apply replace_year_plain.
    + apply (proj1 (replace_year_valid bday (date.year today) _
                      (replace_year_plain bday (date.year today) Vb L
                         ltac:(lia)))).
    + exact L.
    + lia.
Qed.

Lemma upcoming_of_cases (today : date.t) (r : Record.t) :
  date.valid today -> date.year today < 9999 -> record_ok r ->
  (exists o, AddressBook.upcoming_of today r = Ret o)
  \/ (AddressBook.upcoming_of today r = Exc day_out_of_range
      /\ exists b d,
           Record.birthday r = Some b
           /\ strptime.parse (Birthday.value b) = Ret d
           /\ no_next_occurrence today d = true).
Proof.
  intros V Y [_ Ok]. rewrite upcoming_of_eq.
  destruct (Record.birthday r) as [b|] eqn:B; [|left; eauto].
  destruct (Ok b eq_refl) as [d P]. rewrite P. cbn [bind].
  pose proof (next_occurrence_cases today d V Y (parse_valid _ _ P)) as C.
  destruct (no_next_occurrence today d) eqn:NO.
  - right. rewrite C. split; [reflexivity|]. exists b, d. auto.
  - left. destruct C as [occ ->]. cbn [bind]. eauto.
Qed.

Lemma upcoming_loop_raises (today : date.t) (records : list Record.t)
  (r : Record.t) :
  In r records -> is_exc (AddressBook.upcoming_of today r) = true ->
  forall acc, is_exc (AddressBook.upcoming_loop today records acc) = true.
Proof.
  intros I X. induction records as [|r0 records IH]; [destruct I|].
  intros acc. cbn [AddressBook.upcoming_loop].
  destruct I as [->|I].
  - destruct (AddressBook.upcoming_of today r); [discriminate | reflexivity].
  - destruct (AddressBook.upcoming_of today r0); [|reflexivity].
    cbn [bind]. apply IH, I.
Qed.

(** X15: on a book that keeps the invariant and a date before the year
    9999, the scan of the birthdays fails exactly when some contact's
    birthday is 29 February and either this year has no 29 February or
    this year's has passed; the exception is then the [ValueError] "day is
    out of range for month", and in every other case the scan returns a
    list. *)
Theorem X15_scan_fails_only_on_leap_days (today : date.t)
  (book : AddressBook.t) :
  date.valid today -> date.year today < 9999 -> book_ok book ->
  let leap_day_on_file :=
    exists r b d,
      In r (AddressBook.values book) /\ Record.birthday r = Some b
      /\ strptime.parse (Birthday.value b) = Ret d
      /\ no_next_occurrence today d = true in
  (forall e,
      AddressBook.get_upcoming_birthdays today book = Exc e
      <-> e = day_out_of_range /\ leap_day_on_file)
  /\ (~ leap_day_on_file ->
      exists l, AddressBook.get_upcoming_birthdays today book = Ret l).
Proof.
  intros V Y [_ Ok] leap_day_on_file.
  assert (Fwd : forall e,
             AddressBook.get_upcoming_birthdays today book = Exc e ->
             e = day_out_of_range /\ leap_day_on_file).
  { intros e G. apply upcoming_loop_exc_iff in G.
    destruct G as (before & r & after & E & _ & X).
    assert (I : In r (AddressBook.values book))
      by (rewrite E; apply in_or_app; right; left; reflexivity).
    rewrite Forall_forall in Ok.
    destruct (upcoming_of_cases today r V Y (Ok r I))
      as [[o R]|(R & b & d & B & P & NO)]; [congruence|].
    split; [congruence|]. exists r, b, d. auto. }
  split.
  - intros e. split; [apply Fwd|].
    intros (-> & r & b & d & I & B & P & NO).
    destruct (AddressBook.get_upcoming_birthdays today book) as [l|e] eqn:G.
    + exfalso.
      assert (X : is_exc (AddressBook.upcoming_of today r) = true).
      { rewrite Forall_forall in Ok.
        destruct (upcoming_of_cases today r V Y (Ok r I))
          as [[o R]|(R & _)]; [|rewrite R; reflexivity].
        exfalso. rewrite upcoming_of_eq, B, P in R. cbn [bind] in R.
        pose proof (next_occurrence_cases today d V Y (parse_valid _ _ P))
          as C.
        rewrite NO in C. rewrite C in R. discriminate. }
      pose proof (upcoming_loop_raises today _ r I X []) as Z.
      unfold AddressBook.get_upcoming_birthdays in G. rewrite G in Z.
      discriminate.
    + destruct (Fwd e eq_refl) as [-> _]. reflexivity.
  - intros N.
    destruct (AddressBook.get_upcoming_birthdays today book) as [l|e] eqn:G;
      [eauto|].
    exfalso. apply N. apply (Fwd e eq_refl).
Qed.

Lemma X15_scan_fails_witness :
  AddressBook.get_upcoming_birthdays monday_10_06_2024 leap_day_book
  = Exc day_out_of_range.
Proof.
  refine (proj2 (proj1
    (X15_scan_fails_only_on_leap_days monday_10_06_2024 leap_day_book
       _ _ _) day_out_of_range) _).
  - repeat split; vm_compute; discriminate.
  - reflexivity.
  - split.
    + repeat constructor; cbn; intros H;
        repeat (destruct H as [H|H]; [apply str_eqb_eq in H; discriminate|]);
        exact H.
    + repeat constructor; try discriminate.
      * intros b [= <-]. eexists. vm_compute. reflexivity.
      * intros b [= <-]. eexists. vm_compute. reflexivity.
  - split; [reflexivity|].
    exists (contact "Bob" "29.02.2000"),
      {| Birthday.value := lit "29.02.2000" |},
      {| date.year := 2000; date.month := 2; date.day := 29 |}.
    repeat split; try reflexivity. right; left; reflexivity.
Defined.

(** ** The format of the dates *)

Lemma dec_digits_four (fuel : nat) (n : Z) :
  (4 <= fuel)%nat -> 1000 <= n <= 9999 ->
  dec_digits fuel n
  = [48 + (n / 10 / 10 / 10) mod 10; 48 + (n / 10 / 10) mod 10;
     48 + (n / 10) mod 10; 48 + n mod 10].
Proof.
  intros F N. destruct fuel as [|[|[|[|k]]]]; try lia.
  cbn [dec_digits].
  replace (n <? 10) with false
    by (symmetry; apply Z.ltb_ge; lia).
  replace (n / 10 <? 10) with false
    by (symmetry; apply Z.ltb_ge; Z.div_mod_to_equations; lia).
  replace (n / 10 / 10 <? 10) with false
    by (symmetry; apply Z.ltb_ge; Z.div_mod_to_equations; lia).
  replace (n / 10 / 10 / 10 <? 10) with true
    by (symmetry; apply Z.ltb_lt; Z.div_mod_to_equations; lia).
  reflexivity.
Qed.

Lemma str_of_int_four (n : Z) :
  1000 <= n <= 9999 ->
  str_of_int n
  = [48 + (n / 10 / 10 / 10) mod 10; 48 + (n / 10 / 10) mod 10;
     48 + (n / 10) mod 10; 48 + n mod 10].
Proof.
  intros N. unfold str_of_int. apply dec_digits_four; [|exact N].
  assert (L : Z.log2 1000 <= Z.log2 n) by (apply Z.log2_le_mono; lia).
  change (Z.log2 1000) with 9 in L. lia.
Qed.

Lemma mod10_ascii_digit (n : Z) : is_ascii_digit (48 + n mod 10) = true.
Proof.
  apply ascii_digit_range. pose proof (Z.mod_pos_bound n 10 ltac:(lia)). lia.
Qed.

Lemma div10_ascii_digit (n : Z) :
  0 <= n <= 99 -> is_ascii_digit (48 + n / 10) = true.
Proof.
  intros N. apply ascii_digit_range. Z.div_mod_to_equations. lia.
Qed.

(** X16: the scan prints its dates in the format [Birthday] reads: for
    every date of the years 1000 to 9999, the text [strftime] gives is of
    the zero-padded form DD.MM.YYYY, [strptime] reads it back as the same
    date, and [Birthday] accepts it. *)
Theorem X16_printed_dates_read_back (d : date.t) :
  date.valid d -> 1000 <= date.year d ->
  spec_dd_mm_yyyy (date.strftime d) = true
  /\ strptime.parse (date.strftime d) = Ret d
  /\ Birthday.init (date.strftime d)
     = Ret {| Birthday.value := date.strftime d |}.
Proof.
  intros V Y. pose proof V as ((_ & Y2) & Hm & Hd).
  unfold date.MAXYEAR in Y2.
  pose proof (days_in_month_bounds (date.year d) (date.month d) Hm) as Bd.
  set (dd := date.day d) in *. set (m := date.month d) in *.
  set (y := date.year d) in *.
  assert (S : date.strftime d
              = [48 + dd / 10; 48 + dd mod 10] ++ [46]
                ++ [48 + m / 10; 48 + m mod 10] ++ [46]
                ++ [48 + (y / 10 / 10 / 10) mod 10; 48 + (y / 10 / 10) mod 10;
                    48 + (y / 10) mod 10; 48 + y mod 10]).
  { unfold date.strftime, two_digits. fold dd m y.
    rewrite (str_of_int_four y) by lia. reflexivity. }
  assert (Ad1 : is_ascii_digit (48 + dd / 10) = true)
    by (apply div10_ascii_digit; lia).
  assert (Am1 : is_ascii_digit (48 + m / 10) = true)
    by (apply div10_ascii_digit; lia).
  pose proof (mod10_ascii_digit dd) as Ad2.
  pose proof (mod10_ascii_digit m) as Am2.
  pose proof (mod10_ascii_digit (y / 10 / 10 / 10)) as Ay1.
  pose proof (mod10_ascii_digit (y / 10 / 10)) as Ay2.
  pose proof (mod10_ascii_digit (y / 10)) as Ay3.
  pose proof (mod10_ascii_digit y) as Ay4.
  assert (Ed : 10 * (48 + dd / 10 - 48) + (48 + dd mod 10 - 48) = dd)
    by (Z.div_mod_to_equations; lia).
  assert (Em : 10 * (48 + m / 10 - 48) + (48 + m mod 10 - 48) = m)
    by (Z.div_mod_to_equations; lia).
  assert (Ey : 1000 * (48 + (y / 10 / 10 / 10) mod 10 - 48)
               + 100 * (48 + (y / 10 / 10) mod 10 - 48)
               + 10 * (48 + (y / 10) mod 10 - 48) + (48 + y mod 10 - 48) = y)
    by (Z.div_mod_to_equations; lia).
  assert (Sp : spec_dd_mm_yyyy (date.strftime d) = true).
  { rewrite S. cbn [app spec_dd_mm_yyyy forallb].
    rewrite Ad1, Ad2, Am1, Am2, Ay1, Ay2, Ay3, Ay4, Ed, Em, Ey.
    cbn [andb]. change (46 =? 46) with true. cbn [andb].
    rewrite !andb_true_iff, !Z.leb_le. fold dd m y. lia. }
  assert (P : strptime.parse (date.strftime d) = Ret d).
  { apply parse_ret_iff.
    exists [48 + dd / 10; 48 + dd mod 10], [48 + m / 10; 48 + m mod 10],
      [48 + (y / 10 / 10 / 10) mod 10; 48 + (y / 10 / 10) mod 10;
       48 + (y / 10) mod 10; 48 + y mod 10].
    split; [exact S|].
    split; [apply two_digit_day; auto; lia|].
    split; [apply two_digit_month; auto; lia|].
    split.
    { cbn [year_text].
      rewrite (ascii_digit_is_decimal _ Ay1), (ascii_digit_is_decimal _ Ay2),
        (ascii_digit_is_decimal _ Ay3), (ascii_digit_is_decimal _ Ay4).
      reflexivity. }
    transitivity (date.new y m dd); [|apply (new_valid d V)].
    f_equal.
    - exact (eq_trans (int_of_four_digits _ _ _ _ Ay1 Ay2 Ay3 Ay4) Ey).
    - exact (eq_trans (int_of_two_digits _ _ Am1 Am2) Em).
    - exact (eq_trans (int_of_two_digits _ _ Ad1 Ad2) Ed). }
  split; [exact Sp | split; [exact P|]].
  unfold Birthday.init. rewrite P. reflexivity.
Qed.

Lemma X16_printed_dates_witness :
  strptime.parse (date.strftime monday_10_06_2024) = Ret monday_10_06_2024.
Proof.
  refine (proj1 (proj2 (X16_printed_dates_read_back monday_10_06_2024 _ _))).
  - repeat split; vm_compute; discriminate.
  - vm_compute. discriminate.
Defined.

(** ** Nothing on file is lost *)

Lemma keeps_refl (r : Record.t) : keeps r r.
Proof. unfold keeps. auto. Qed.

Lemma add_phone_keeps (r r' : Record.t) (phone : pystr) :
  Record.add_phone r phone = Ret r' -> keeps r r'.
Proof.
  unfold Record.add_phone. destruct (Phone.init phone); [|discriminate].
  intros [= <-]. unfold keeps. cbn. rewrite length_app. cbn. split; [auto|].
  split; [lia | auto].
Qed.

Lemma change_phone_loop_length (phones phones' : list Phone.t)
  (old new : pystr) :
  Record.change_phone_loop phones old new = Ret phones' ->
  List.length phones' = List.length phones.
Proof.
  revert phones'. induction phones as [|p phones IH]; intros phones';
    cbn [Record.change_phone_loop]; [discriminate|].
  destruct (str_eqb (Phone.value p) old).
  - destruct (Phone.init new); [|discriminate]. intros [= <-]. reflexivity.
  - destruct (Record.change_phone_loop phones old new) as [rest|];
      [|discriminate].
    intros [= <-]. cbn. rewrite (IH rest eq_refl). reflexivity.
Qed.

Lemma change_phone_keeps (r r' : Record.t) (old new : pystr) :
  Record.change_phone r old new = Ret r' -> keeps r r'.
Proof.
  unfold Record.change_phone.
  destruct (Record.change_phone_loop (Record.phones r) old new) as [ps|] eqn:E;
    [|discriminate].
  intros [= <-]. apply change_phone_loop_length in E.
  unfold keeps. cbn. rewrite E. split; [auto|]. split; [lia | auto].
Qed.

Lemma add_birthday_keeps (r r' : Record.t) (b : pystr) :
  Record.add_birthday r b = Ret r' -> keeps r r'.
Proof.
  unfold Record.add_birthday. destruct (Birthday.init b); [|discriminate].
  intros [= <-]. unfold keeps. cbn. split; [auto|]. split; [lia|].
  intros _. discriminate.
Qed.

Lemma kept_refl (book : AddressBook.t) (key : pystr) (r : Record.t) :
  AddressBook.get book key = Some r ->
  exists r', AddressBook.get book key = Some r' /\ keeps r r'.
Proof. intros G. exists r. split; [exact G | apply keeps_refl]. Qed.

Lemma kept_setitem (book : AddressBook.t) (name : pystr) (r0' : Record.t)
  (key : pystr) (r : Record.t) :
  (forall r0, AddressBook.get book name = Some r0 -> keeps r0 r0') ->
  AddressBook.get book key = Some r ->
  exists r',
    AddressBook.get (AddressBook.setitem book name r0') key = Some r'
    /\ keeps r r'.
Proof.
  intros K G. rewrite get_setitem.
  destruct (str_eqb name key) eqn:E.
  - apply str_eqb_eq in E. rewrite <- E in G.
    exists r0'. split; [reflexivity | apply K, G].
  - exists r. split; [exact G | apply keeps_refl].
Qed.

Lemma add_contact_kept (args : list pystr) (book : AddressBook.t)
  (key : pystr) (r : Record.t) :
  AddressBook.get book key = Some r ->
  exists r',
    AddressBook.get (snd (add_contact_func (args, book))) key = Some r'
    /\ keeps r r'.
Proof.
  intros G. unfold add_contact_func.
  destruct args as [|name [|phone [|? ?]]]; try (apply kept_refl, G).
  destruct (AddressBook.get book name) as [r0|] eqn:G0.
  - destruct (Record.add_phone r0 phone) as [r0'|] eqn:E;
      [|apply kept_refl, G].
    apply kept_setitem; [|exact G].
    intros x X. rewrite G0 in X. injection X as <-.
    eapply add_phone_keeps; eauto.
  - destruct (Record.add_phone (Record.init name) phone) as [r0'|] eqn:E;
      [|apply kept_refl, G].
    unfold AddressBook.add_record. rewrite (add_phone_name _ _ _ E).
    apply kept_setitem; [|exact G]. cbn. intros x X. congruence.
Qed.

Lemma change_contact_kept (args : list pystr) (book : AddressBook.t)
  (key : pystr) (r : Record.t) :
  AddressBook.get book key = Some r ->
  exists r',
    AddressBook.get (snd (change_contact_func (args, book))) key = Some r'
    /\ keeps r r'.
Proof.
  intros G. unfold change_contact_func.
  destruct args as [|name [|old [|new [|? ?]]]]; try (apply kept_refl, G).
  destruct (AddressBook.get book name) as [r0|] eqn:G0;
    [|apply kept_refl, G].
  destruct (Record.change_phone r0 old new) as [r0'|] eqn:E;
    [|apply kept_refl, G].
  apply kept_setitem; [|exact G].
  intros x X. rewrite G0 in X. injection X as <-.
  eapply change_phone_keeps; eauto.
Qed.

Lemma add_birthday_handler_kept (args : list pystr) (book : AddressBook.t)
  (key : pystr) (r : Record.t) :
  AddressBook.get book key = Some r ->
  exists r',
    AddressBook.get (snd (add_birthday_handler_func (args, book))) key
    = Some r'
    /\ keeps r r'.
Proof.
  intros G. unfold add_birthday_handler_func.
  destruct args as [|name [|b [|? ?]]]; try (apply kept_refl, G).
  destruct (AddressBook.get book name) as [r0|] eqn:G0.
  - destruct (Record.add_birthday r0 b) as [r0'|] eqn:E;
      [|apply kept_refl, G].
    apply kept_setitem; [|exact G].
    intros x X. rewrite G0 in X. injection X as <-.
    eapply add_birthday_keeps; eauto.
  - unfold AddressBook.add_record.
    cbn [Record.init Record.name Name.init Name.value].
    destruct (Record.add_birthday _ b) as [r0'|] eqn:E; cbn [snd].
    + rewrite setitem_setitem. apply kept_setitem; [|exact G].
      intros x X. congruence.
    + apply kept_setitem; [|exact G]. intros x X. congruence.
Qed.

Lemma handler_kept (today : date.t) (command : pystr) (h : handler)
  (args : list pystr) (book : AddressBook.t) (key : pystr) (r : Record.t) :
  lookup command (commands today) = Some h ->
  AddressBook.get book key = Some r ->
  exists r',
    AddressBook.get
      (snd match h with
           | with_args f => f (args, book)
           | book_only f => f book
           end) key = Some r'
    /\ keeps r r'.
Proof.
  unfold commands. cbn [lookup]. intros L G.
  repeat match type of L with
         | (if ?c then _ else _) = _ => destruct c
         end;
    try discriminate; injection L as <-;
    unfold add_contact, change_contact, show_phone, show_all,
      add_birthday_handler, show_birthday, upcoming_birthdays;
    rewrite input_error_book.
  - apply add_contact_kept, G.
  - apply change_contact_kept, G.
  - rewrite show_phone_book. apply kept_refl, G.
  - apply kept_refl, G.
  - apply add_birthday_handler_kept, G.
  - rewrite show_birthday_book. apply kept_refl, G.
  - rewrite upcoming_birthdays_book. apply kept_refl, G.
Qed.

(** X17: no turn of the loop loses data: a contact on file before the
    turn is on file after it under the same key, with the same name, with
    as many phones as before or one more, and still with a birthday if it
    had one. *)
Theorem X17_nothing_on_file_is_lost (lower : pystr -> pystr) (today : date.t)
  (line : pystr) (book : AddressBook.t) (printed : list pystr)
  (book' : AddressBook.t) (key : pystr) (r : Record.t) :
  main_turn lower today line book = Continue printed book' ->
  AddressBook.get book key = Some r ->
  exists r', AddressBook.get book' key = Some r' /\ keeps r r'.
Proof.
  intros T G. revert T. unfold main_turn.
  destruct (split (strip line)) as [|word args];
    [intros [= _ <-]; apply kept_refl, G|].
  destruct (mem (lower word) [lit "close"; lit "exit"]); [discriminate|].
  destruct (str_eqb (lower word) (lit "hello"));
    [intros [= _ <-]; apply kept_refl, G|].
  destruct (lookup (lower word) (commands today)) as [h|] eqn:L;
    [|intros [= _ <-]; apply kept_refl, G].
  pose proof (handler_kept today _ h args book key r L G) as K.
  destruct (mem (lower word) [lit "all"; lit "birthdays"]);
    destruct h as [f|f]; try discriminate;
    intros E; apply print_outcome_book in E; subst; exact K.
Qed.

Lemma X17_nothing_on_file_is_lost_witness :
  exists r',
    AddressBook.get
      (AddressBook.setitem john_book (lit "John")
         {| Record.name := Name.init (lit "John");
            Record.phones := [ {| Phone.value := lit "5555555555" |} ];
            Record.birthday := None |})
      (lit "John") = Some r'
    /\ keeps {| Record.name := Name.init (lit "John");
                Record.phones := [ {| Phone.value := lit "1234567890" |} ];
                Record.birthday := None |} r'.
Proof.
  apply (X17_nothing_on_file_is_lost ascii_lower monday_10_06_2024
           (lit "change John 1234567890 5555555555") john_book
           [lit "Phone number for John updated."]);
    vm_compute; reflexivity.
Defined.
